(** * zedproxy: the credential cache and the retrying transports

    A shallow embedding of the token machinery of the reverse proxy
    (tokenProvider, tokenErrorTransport, tokenRetryTransport,
    newReverseProxy and fetchTokenFromURL) together with the properties
    its specification states about it.

    Go values are represented as follows.
    - [string] is a sequence of bytes, as in Go.
    - [time.Duration] is an int64 count of nanoseconds: a [Z] whose
      overflowing operations are wrapped with [wrap64].
    - [time.Time] is an instant, counted in nanoseconds from the zero
      instant [time.Time{}].
    - [error] values are compared by what they say.
    - Code that has effects (the clock, the refresh function, the network)
      runs in a state monad over the outside world [E], the provider cell
      and a trace of the calls that left the program. *)

From Stdlib Require Import ZArith List String Ascii Bool Lia.
Import ListNotations.
Local Open Scope string_scope.
Local Open Scope list_scope.
Local Open Scope Z_scope.

(** ** Go strings and [strings.TrimSpace] *)

Definition bytes := list ascii.

Definition byte_of (n : nat) : ascii := ascii_of_nat n.

(** The UTF-8 encodings of the code points for which [unicode.IsSpace]
    answers true: the six ASCII ones of the [asciiSpace] table, U+0085,
    U+00A0 and the other White_Space code points. *)
Definition spaceEncodings : list bytes :=
  map (map byte_of)
    [ [9]; [10]; [11]; [12]; [13]; [32]
    ; [194; 133]; [194; 160]
    ; [225; 154; 128]
    ; [226; 128; 128]; [226; 128; 129]; [226; 128; 130]; [226; 128; 131]
    ; [226; 128; 132]; [226; 128; 133]; [226; 128; 134]; [226; 128; 135]
    ; [226; 128; 136]; [226; 128; 137]; [226; 128; 138]
    ; [226; 128; 168]; [226; 128; 169]; [226; 128; 175]
    ; [226; 129; 159]
    ; [227; 128; 128] ]%nat.

(** [dropPrefix p s] is the rest of [s] after its prefix [p], if it has it. *)
Fixpoint dropPrefix (p s : bytes) : option bytes :=
  match p, s with
  | [], _ => Some s
  | a :: p', c :: s' => if Ascii.eqb a c then dropPrefix p' s' else None
  | _ :: _, [] => None
  end.

Fixpoint dropAny (ps : list bytes) (s : bytes) : option bytes :=
  match ps with
  | [] => None
  | p :: ps' =>
      match dropPrefix p s with
      | Some r => Some r
      | None => dropAny ps' s
      end
  end.

(** Removes leading occurrences of the patterns, at most [n] of them. *)
Fixpoint trimLeftN (ps : list bytes) (n : nat) (s : bytes) : bytes :=
  match n with
  | O => s
  | S n' =>
      match dropAny ps s with
      | Some r => trimLeftN ps n' r
      | None => s
      end
  end.

Definition trimLeft (ps : list bytes) (s : bytes) : bytes :=
  trimLeftN ps (List.length s) s.

(** A white-space rune at the end of a string is found by
    [utf8.DecodeLastRuneInString], which steps back to the lead byte of the
    last rune: the string ends with a white-space rune exactly when one of
    the encodings is a suffix of it. *)
Definition trimRight (ps : list bytes) (s : bytes) : bytes :=
  rev (trimLeft (map (@rev ascii) ps) (rev s)).

(** [strings.TrimSpace]: all leading and trailing white space removed. *)
Definition TrimSpace (s : string) : string :=
  string_of_list_ascii
    (trimRight spaceEncodings
       (trimLeft spaceEncodings (list_ascii_of_string s))).

(** [strings.TrimSpace(s) == ""] *)
Definition blank (s : string) : bool := String.eqb (TrimSpace s) "".

(** ** Durations and instants *)

Definition Duration := Z.

Definition wrap64 (z : Z) : Z := (z + 2 ^ 63) mod 2 ^ 64 - 2 ^ 63.

Definition int64_range (z : Z) : Prop := - 2 ^ 63 <= z < 2 ^ 63.

Definition Nanosecond : Duration := 1.
Definition Second : Duration := 1000000000.

(** [const defaultExpiryBuffer = 30 * time.Second] *)
Definition defaultExpiryBuffer : Duration := 30 * Second.

Definition Time := Z.

(** [time.Time{}] *)
Definition zeroTime : Time := 0.

Definition IsZero (t : Time) : bool := t =? zeroTime.

(** [t.After(u)]: [t] is strictly later than [u]. *)
Definition After (t u : Time) : bool := u <? t.

(** [t.Add(d)] *)
Definition Add (t : Time) (d : Duration) : Time := t + d.

(** ** Errors *)

Inductive error : Type :=
| errors_New (text : string)
| foreign (code : nat).

Inductive result (A : Type) : Type :=
| Ok (a : A)
| Err (e : error).
Arguments Ok {A} a.
Arguments Err {A} e.

Definition errProviderNotConfigured := errors_New "token provider is not configured".
Definition errTokenEmpty := errors_New "token is empty".
Definition errRefreshNotConfigured := errors_New "token refresh is not configured".
Definition errRefreshNon200 := errors_New "token refresh returned non-200".
Definition errRefreshEmptyToken := errors_New "token refresh returned empty token".

(** The names the specification gives to the failures of the credential
    machinery. *)
Inductive ErrorClass : Type :=
| NotConfigured
| EmptyCredential
| RefreshHTTPError
| OtherFailure.

Definition classify (e : error) : ErrorClass :=
  match e with
  | errors_New text =>
      if String.eqb text "token provider is not configured" then NotConfigured
      else if String.eqb text "token refresh is not configured" then NotConfigured
      else if String.eqb text "token is empty" then EmptyCredential
      else if String.eqb text "token refresh returned empty token" then EmptyCredential
      else if String.eqb text "token refresh returned non-200" then RefreshHTTPError
      else OtherFailure
  | foreign _ => OtherFailure
  end.

(** ** Requests, responses and the provider *)

Inductive ctxKey : Type := tokenErrorKey | tokenRetryKey.

Inductive ctxVal : Type :=
| ErrorVal (e : error)
| BoolVal (b : bool).

(** A [context.Context], as the chain of the values attached to it, the
    latest first. *)
Definition Ctx := list (ctxKey * ctxVal).

Definition ctxKey_eqb (a b : ctxKey) : bool :=
  match a, b with
  | tokenErrorKey, tokenErrorKey => true
  | tokenRetryKey, tokenRetryKey => true
  | _, _ => false
  end.

(** [context.WithValue(ctx, k, v)] *)
Definition WithValue (ctx : Ctx) (k : ctxKey) (v : ctxVal) : Ctx := (k, v) :: ctx.

(** [ctx.Value(k)]; [None] is the nil interface. *)
Fixpoint Value (ctx : Ctx) (k : ctxKey) : option ctxVal :=
  match ctx with
  | [] => None
  | (k', v) :: rest => if ctxKey_eqb k k' then Some v else Value rest k
  end.

(** An [http.Header] holding one value per key. *)
Definition header := list (string * string).

Fixpoint Header_Del (k : string) (h : header) : header :=
  match h with
  | [] => []
  | (k', v) :: rest =>
      if String.eqb k k' then Header_Del k rest else (k', v) :: Header_Del k rest
  end.

Definition Header_Set (k v : string) (h : header) : header :=
  (k, v) :: Header_Del k h.

Fixpoint Header_Get (k : string) (h : header) : string :=
  match h with
  | [] => ""
  | (k', v) :: rest => if String.eqb k k' then v else Header_Get k rest
  end.

(** A request or response body: nil, the [http.NoBody] sentinel, or a
    reader of its own. *)
Inductive body : Type :=
| nilBody
| NoBody
| reader (content : string).

Record Response : Type := mkResponse
  { StatusCode : Z
  ; RespBody : body }.

Definition StatusOK : Z := 200.
Definition StatusUnauthorized : Z := 401.
Definition StatusBadGateway : Z := 502.

(** [http.Error(w, "proxy error", http.StatusBadGateway)]: the text and a
    line feed. *)
Definition badGateway : Response :=
  {| StatusCode := StatusBadGateway;
     RespBody := reader (String.append "proxy error" (String (byte_of 10) "")) |}.

(** [*tokenProvider]: the proxy allocates one provider (newReverseProxy);
    a pointer is nil or the address of that cell. *)
Inductive providerPtr : Type := nilProvider | theProvider.

Section Model.

Context {E : Type}.

Record Request : Type := mkRequest
  { reqCtx : Ctx
  ; URLPath : string
  ; Header : header
  ; Body : body
  ; GetBody : option (E -> result body * E) }.

(** [type TokenFetcherFunc func() string] *)
Definition TokenFetcherFunc := E -> string * E.

(** [type TokenRefreshFunc func(ctx context.Context) (string, error)] *)
Definition TokenRefreshFunc := Ctx -> E -> result string * E.

(** [type tokenRefreshFunc func(ctx context.Context) (string, time.Duration, error)] *)
Definition tokenRefreshFunc := Ctx -> E -> result (string * Duration) * E.

(** The mutex [mu] serialises the callers; one caller runs here at a time
    and the field is left out. *)
Record tokenProvider : Type := mkProvider
  { token : string
  ; refreshAt : Time
  ; fetch : option TokenFetcherFunc
  ; refresh : option tokenRefreshFunc }.

(** [&tokenProvider{}] *)
Definition emptyProvider : tokenProvider :=
  {| token := ""; refreshAt := zeroTime; fetch := None; refresh := None |}.

(** What leaves the program. *)
Inductive Event : Type :=
| FetchCalled
| RefreshCalled
| Dispatched (req : Request)
| BodyClosed
| GetBodyCalled.

Record State : Type := mkState
  { world : E
  ; provider : tokenProvider
  ; trace : list Event }.

Definition M (A : Type) : Type := State -> A * State.

Definition ret {A} (a : A) : M A := fun st => (a, st).

Definition bind {A B} (m : M A) (k : A -> M B) : M B :=
  fun st => let (a, st') := m st in k a st'.

Definition getProvider : M tokenProvider := fun st => (provider st, st).

Definition putProvider (p : tokenProvider) : M unit :=
  fun st => (tt, {| world := world st; provider := p; trace := trace st |}).

Definition emit (ev : Event) : M unit :=
  fun st => (tt, {| world := world st; provider := provider st;
                    trace := trace st ++ [ev] |}).

(** Runs a function of the outside world. *)
Definition outside {A} (f : E -> A * E) : M A :=
  fun st => let (a, w) := f (world st) in
            (a, {| world := w; provider := provider st; trace := trace st |}).

(** What the program takes from its platform: the clock, the network and
    the library functions it calls. *)
Class World : Type :=
  { clock : E -> Time
    (* http.DefaultTransport *)
  ; backend : Request -> E -> result Response * E
    (* url.Parse answers an error for what it cannot parse *)
  ; url_Parse : string -> option error
    (* http.NewRequestWithContext *)
  ; http_NewRequest : string -> option error
    (* (&http.Client{Timeout: 5 * time.Second}).Do, a GET of the URL *)
  ; client_Get : Ctx -> string -> E -> result Response * E
    (* json.NewDecoder(resp.Body).Decode(&payload): access_token, expires_in *)
  ; json_Decode : body -> result (string * Z)
    (* the Director of httputil.NewSingleHostReverseProxy(target) *)
  ; baseDirector : string -> Request -> Request }.

Context {W : World}.

(** [time.Now()] *)
Definition Now : M Time := fun st => (clock (world st), st).

End Model.

Arguments Request : clear implicits.
Arguments tokenProvider : clear implicits.
Arguments Event : clear implicits.
Arguments State : clear implicits.
Arguments World : clear implicits.
Arguments M : clear implicits.
Arguments TokenFetcherFunc : clear implicits.
Arguments TokenRefreshFunc : clear implicits.
Arguments tokenRefreshFunc : clear implicits.

Declare Scope go_scope.
Notation "x <- m ;; k" := (bind m (fun x => k))
  (at level 61, m at next level, right associativity) : go_scope.
Notation "m ;; k" := (bind m (fun _ => k))
  (at level 61, right associativity) : go_scope.
Local Open Scope go_scope.

(** ** The credential provider *)

Section Provider.

Context {E : Type} {W : World E}.

(** [func (p *tokenProvider) current() string] *)
Definition current : M E string :=
  p <- getProvider ;; ret (token p).

(** [func (p *tokenProvider) set(token string)] *)
Definition set (tok : string) : M E unit :=
  p <- getProvider ;;
  putProvider {| token := tok; refreshAt := refreshAt p;
                 fetch := fetch p; refresh := refresh p |}.

(** The buffer that [setWithExpiry] computes for a positive [expiresIn]. *)
Definition expiryBuffer (expiresIn : Duration) : Duration :=
  let buffer := defaultExpiryBuffer in
  let buffer :=
    if (0 <? expiresIn ÷ 10) && (expiresIn ÷ 10 <? buffer)
    then expiresIn ÷ 10 else buffer in
  let buffer :=
    if expiresIn <? buffer then expiresIn ÷ 2 else buffer in
  let buffer :=
    if (2 * Second <=? expiresIn) && (buffer <? Second)
    then Second else buffer in
  buffer.

(** [func (p *tokenProvider) setWithExpiry(token string, expiresIn time.Duration)] *)
Definition setWithExpiry (tok : string) (expiresIn : Duration) : M E unit :=
  p <- getProvider ;;
  at_ <- (if 0 <? expiresIn then
            let buffer := expiryBuffer expiresIn in
            now <- Now ;;
            let expiresAt := Add now expiresIn in
            ret (Add expiresAt (wrap64 (- buffer)))
          else ret zeroTime) ;;
  putProvider {| token := tok; refreshAt := at_;
                 fetch := fetch p; refresh := refresh p |}.

(** A call of the provider's refresh function. *)
Definition callRefresh (f : tokenRefreshFunc E) (ctx : Ctx)
  : M E (result (string * Duration)) :=
  emit RefreshCalled ;; outside (f ctx).

(** [func (p *tokenProvider) ensureToken(ctx context.Context) (string, error)] *)
Definition ensureToken (ctx : Ctx) (p : providerPtr) : M E (result string) :=
  match p with
  | nilProvider => ret (Err errProviderNotConfigured)
  | theProvider =>
      pr <- getProvider ;;
      match refresh pr with
      | None =>
          if blank (token pr) then ret (Err errTokenEmpty)
          else ret (Ok (token pr))
      | Some f =>
          now <- Now ;;
          if blank (token pr)
             || (negb (IsZero (refreshAt pr)) && After now (refreshAt pr))
          then
            out <- callRefresh f ctx ;;
            match out with
            | Err err => ret (Err err)
            | Ok (tok, expiresIn) =>
                let tok := TrimSpace tok in
                if String.eqb tok "" then ret (Err errTokenEmpty)
                else
                  setWithExpiry tok expiresIn ;;
                  pr' <- getProvider ;;
                  ret (Ok (token pr'))
            end
          else ret (Ok (token pr))
      end
  end.

(** [func (p *tokenProvider) forceRefresh(ctx context.Context) (string, error)] *)
Definition forceRefresh (ctx : Ctx) (p : providerPtr) : M E (result string) :=
  match p with
  | nilProvider => ret (Err errRefreshNotConfigured)
  | theProvider =>
      pr <- getProvider ;;
      match refresh pr with
      | None => ret (Err errRefreshNotConfigured)
      | Some f =>
          out <- callRefresh f ctx ;;
          match out with
          | Err err => ret (Err err)
          | Ok (tok, expiresIn) =>
              let tok := TrimSpace tok in
              if String.eqb tok "" then ret (Err errTokenEmpty)
              else
                setWithExpiry tok expiresIn ;;
                ret (Ok tok)
          end
      end
  end.

End Provider.

(** ** The transports *)

Section Transports.

Context {E : Type} {W : World E}.

(** [http.RoundTripper] *)
Class RoundTripper (T : Type) : Type :=
  RoundTrip : T -> Request E -> M E (result Response).

(** The transport that reaches the backend; every request it is given is
    recorded in the trace. *)
Inductive httpTransport : Type := DefaultTransport.

#[export] Instance httpTransport_RoundTripper : RoundTripper httpTransport :=
  fun _ req => emit (Dispatched req) ;; outside (backend req).

Record tokenErrorTransport (B : Type) : Type := mkErrorTransport
  { errBase : B }.
Arguments errBase {B} _.

(** [func (t tokenErrorTransport) RoundTrip(req *http.Request) (resp *http.Response, err error)] *)
#[export] Instance tokenErrorTransport_RoundTripper {B} `{RoundTripper B}
  : RoundTripper (tokenErrorTransport B) :=
  fun t req =>
    match Value (reqCtx req) tokenErrorKey with
    | Some (ErrorVal err) => ret (Err err)
    | _ => RoundTrip (errBase t) req
    end.

Record tokenRetryTransport (B : Type) : Type := mkRetryTransport
  { retryBase : B
  ; retryProvider : providerPtr }.
Arguments retryBase {B} _.
Arguments retryProvider {B} _.

(** [req.Body != nil && req.Body != http.NoBody && req.GetBody == nil] *)
Definition notReplayable (req : Request E) : bool :=
  match Body req, GetBody req with
  | reader _, None => true
  | _, _ => false
  end.

(** [req.Clone(ctx)] *)
Definition Clone (req : Request E) (ctx : Ctx) : Request E :=
  {| reqCtx := ctx; URLPath := URLPath req; Header := Header req;
     Body := Body req; GetBody := GetBody req |}.

Definition withBody (req : Request E) (b : body) : Request E :=
  {| reqCtx := reqCtx req; URLPath := URLPath req; Header := Header req;
     Body := b; GetBody := GetBody req |}.

(** [req.Header.Set("Authorization", "Bearer "+token)] *)
Definition setBearer (req : Request E) (tok : string) : Request E :=
  {| reqCtx := reqCtx req; URLPath := URLPath req;
     Header := Header_Set "Authorization" (String.append "Bearer " tok) (Header req);
     Body := Body req; GetBody := GetBody req |}.

(** [resp.Body.Close()] when the body is not nil. *)
Definition closeBody (resp : Response) : M E unit :=
  match RespBody resp with
  | nilBody => ret tt
  | _ => emit BodyClosed
  end.

(** [func (t tokenRetryTransport) RoundTrip(req *http.Request) (resp *http.Response, err error)] *)
#[export] Instance tokenRetryTransport_RoundTripper {B} `{RoundTripper B}
  : RoundTripper (tokenRetryTransport B) :=
  fun t req =>
    r <- RoundTrip (retryBase t) req ;;
    match r with
    | Err err => ret (Err err)
    | Ok resp =>
        if negb (StatusCode resp =? StatusUnauthorized) then ret (Ok resp)
        else
          match Value (reqCtx req) tokenRetryKey with
          | Some _ => ret (Ok resp)
          | None =>
              match retryProvider t with
              | nilProvider => ret (Ok resp)
              | theProvider =>
                  pr <- getProvider ;;
                  match refresh pr with
                  | None => ret (Ok resp)
                  | Some _ =>
                      if notReplayable req then ret (Ok resp)
                      else
                        fr <- forceRefresh (reqCtx req) (retryProvider t) ;;
                        match fr with
                        | Err err => ret (Err err)
                        | Ok tok =>
                            closeBody resp ;;
                            let newReq :=
                              Clone req (WithValue (reqCtx req) tokenRetryKey (BoolVal true)) in
                            match GetBody req with
                            | Some getBody =>
                                b <- (emit GetBodyCalled ;; outside getBody) ;;
                                match b with
                                | Err bodyErr => ret (Err bodyErr)
                                | Ok body' =>
                                    RoundTrip (retryBase t)
                                      (setBearer (withBody newReq body') tok)
                                end
                            | None =>
                                RoundTrip (retryBase t) (setBearer newReq tok)
                            end
                        end
                  end
              end
          end
    end.

(** ** The remote credential fetcher *)

(** [func fetchTokenFromURL(ctx context.Context, tokenURL string)
      (string, time.Duration, error)] *)
Definition fetchTokenFromURL (ctx : Ctx) (tokenURL : string)
  : E -> result (string * Duration) * E :=
  fun w =>
    match http_NewRequest tokenURL with
    | Some err => (Err err, w)
    | None =>
        let (r, w') := client_Get ctx tokenURL w in
        match r with
        | Err err => (Err err, w')
        | Ok resp =>
            if negb (StatusCode resp =? StatusOK) then (Err errRefreshNon200, w')
            else
              match json_Decode (RespBody resp) with
              | Err err => (Err err, w')
              | Ok (AccessToken, ExpiresIn) =>
                  if blank AccessToken then (Err errRefreshEmptyToken, w')
                  else if ExpiresIn <=? 0 then (Ok (AccessToken, 0), w')
                  else (Ok (AccessToken, wrap64 (ExpiresIn * Second)), w')
              end
        end
    end.

(** ** Construction *)

Record proxyConfig : Type := mkConfig
  { cfgProvider : tokenProvider E }.

(** [type ProxyOption func(cfg *proxyConfig)] *)
Definition ProxyOption : Type := proxyConfig -> proxyConfig.

(** [func WithTokenFetcherFunc(fetch TokenFetcherFunc) ProxyOption] *)
Definition WithTokenFetcherFunc (f : option (TokenFetcherFunc E)) : ProxyOption :=
  fun cfg =>
    match f with
    | Some _ =>
        {| cfgProvider :=
             {| token := token (cfgProvider cfg);
                refreshAt := refreshAt (cfgProvider cfg);
                fetch := f;
                refresh := refresh (cfgProvider cfg) |} |}
    | None => cfg
    end.

Definition withRefresh (cfg : proxyConfig) (f : tokenRefreshFunc E) : proxyConfig :=
  {| cfgProvider :=
       {| token := token (cfgProvider cfg);
          refreshAt := refreshAt (cfgProvider cfg);
          fetch := fetch (cfgProvider cfg);
          refresh := Some f |} |}.

(** [func WithTokenRefreshFunc(refresh TokenRefreshFunc) ProxyOption] *)
Definition WithTokenRefreshFunc (f : option (TokenRefreshFunc E)) : ProxyOption :=
  fun cfg =>
    match f with
    | Some refresh' =>
        withRefresh cfg
          (fun ctx w =>
             let (r, w') := refresh' ctx w in
             (match r with
              | Ok tok => Ok (tok, 0)
              | Err err => Err err
              end, w'))
    | None => cfg
    end.

(** [func WithTokenRefreshURL(tokenURL string) ProxyOption] *)
Definition WithTokenRefreshURL (tokenURL : string) : ProxyOption :=
  fun cfg =>
    if blank tokenURL then cfg
    else withRefresh cfg (fun ctx => fetchTokenFromURL ctx tokenURL).

Record ReverseProxy : Type := mkProxy
  { Director : Request E -> M E (Request E)
  ; Transport : tokenRetryTransport (tokenErrorTransport httpTransport)
  ; ErrorHandler : error -> Response }.

(** The [proxy.Transport] that newReverseProxy installs. *)
Definition proxyTransport : tokenRetryTransport (tokenErrorTransport httpTransport) :=
  {| retryBase := {| errBase := DefaultTransport |};
     retryProvider := theProvider |}.

(** The [proxy.Director] that newReverseProxy installs. *)
Definition tokenDirector (target : string) (p : providerPtr)
  : Request E -> M E (Request E) :=
  fun req =>
    let req := baseDirector target req in
    r <- ensureToken (reqCtx req) p ;;
    match r with
    | Err err =>
        ret (Clone req (WithValue (reqCtx req) tokenErrorKey (ErrorVal err)))
    | Ok tok => ret (setBearer req tok)
    end.

(** [func newReverseProxy(backendURL string, opts ...ProxyOption)
      (proxy *httputil.ReverseProxy, err error)] *)
Definition newReverseProxy (backendURL : string) (opts : list ProxyOption)
  : M E (result ReverseProxy) :=
  if blank backendURL then ret (Err (errors_New "backend URL is required"))
  else
    match url_Parse backendURL with
    | Some err => ret (Err err)
    | None =>
        let cfg :=
          fold_left (fun cfg opt => opt cfg) opts {| cfgProvider := emptyProvider |} in
        match fetch (cfgProvider cfg), refresh (cfgProvider cfg) with
        | None, None =>
            ret (Err (errors_New "token fetcher or refresh must be configured"))
        | _, _ =>
            putProvider (cfgProvider cfg) ;;
            match fetch (cfgProvider cfg) with
            | Some f =>
                s <- (emit FetchCalled ;; outside f) ;;
                let initial := TrimSpace s in
                if String.eqb initial "" then ret tt else set initial
            | None => ret tt
            end ;;
            ret (Ok {| Director := tokenDirector backendURL theProvider;
                       Transport := proxyTransport;
                       ErrorHandler := fun _ => badGateway |})
        end
    end.

(** What [httputil.ReverseProxy.ServeHTTP] does with the three hooks: the
    director prepares the outbound request, the transport sends it, and a
    transport failure is rendered by the error handler. The headers the
    engine rewrites between the director and the transport (hop-by-hop
    headers, X-Forwarded-For) are left out: the context of the request and
    the call of the transport do not depend on them. *)
Definition ServeHTTP (proxy : ReverseProxy) (req : Request E) : M E Response :=
  outreq <- Director proxy req ;;
  r <- RoundTrip (Transport proxy) outreq ;;
  match r with
  | Err err => ret (ErrorHandler proxy err)
  | Ok resp => ret resp
  end.

(** [func main()] of main.go up to the call of http.ListenAndServe. Its
    inputs are the values of the flags -backend and -token-url as
    flag.Parse leaves them and the environment that os.Getenv reads; its
    result is the proxy that is served, or the error given to log.Fatal. *)
Definition main (backendFlag tokenURLFlag : string) (Getenv : string -> string)
  : M E (result ReverseProxy) :=
  let backendURL := backendFlag in
  let backendURL :=
    if blank backendURL then Getenv "BACKEND_URL" else backendURL in
  let tokenURL := tokenURLFlag in
  let tokenURL :=
    if blank tokenURL then Getenv "TOKEN_URL" else tokenURL in
  let opts : list ProxyOption := [] in
  let opts :=
    if negb (blank tokenURL) then opts ++ [WithTokenRefreshURL tokenURL]
    else opts in
  newReverseProxy backendURL opts.

End Transports.

Arguments mkErrorTransport {B} _.
Arguments errBase {B} _.
Arguments mkRetryTransport {B} _ _.
Arguments retryBase {B} _.
Arguments retryProvider {B} _.

(** ** The specification's wording of the expiry buffer *)

(** The four steps of the buffer computation as the specification words
    them, over unbounded integers; a time unit is a second. *)
Definition unit_ : Z := Second.

Definition specBuffer (ttl : Z) : Z :=
  let b := 30 * unit_ in
  let b := if (0 <? ttl / 10) && (ttl / 10 <? b) then ttl / 10 else b in
  let b := if ttl <? b then ttl / 2 else b in
  let b := if (2 * unit_ <=? ttl) && (b <? 1 * unit_) then 1 * unit_ else b in
  b.

(** [installWithTTL(token, ttl)] as the specification words it. *)
Definition installWithTTL_spec {E} (now : Time) (tok : string) (ttl : Z)
  (p : tokenProvider E) : tokenProvider E :=
  if ttl <=? 0 then
    {| token := tok; refreshAt := zeroTime; fetch := fetch p; refresh := refresh p |}
  else
    {| token := tok; refreshAt := now + ttl - specBuffer ttl;
       fetch := fetch p; refresh := refresh p |}.

(** ** Observations on traces and runs *)

Section Observations.

Context {E : Type} {W : World E}.

Definition isRefresh (ev : Event E) : bool :=
  match ev with RefreshCalled => true | _ => false end.

Definition isDispatch (ev : Event E) : bool :=
  match ev with Dispatched _ => true | _ => false end.

(** How many times the refresh function was invoked. *)
Definition refreshCalls (tr : list (Event E)) : nat :=
  List.length (filter isRefresh tr).

(** How many requests were handed to the backend transport. *)
Definition dispatches (tr : list (Event E)) : nat :=
  List.length (filter isDispatch tr).

(** From [st] to [st'] the trace grew by at most [r] calls of the refresh
    function and [d] requests to the backend. *)
Definition grows (st st' : State E) (r d : nat) : Prop :=
  exists evs, trace st' = trace st ++ evs /\
              (refreshCalls evs <= r)%nat /\ (dispatches evs <= d)%nat.

(** The request carries the retry marker. *)
Definition marked (req : Request E) : Prop :=
  Value (reqCtx req) tokenRetryKey <> None.


(** A transport that sends at most one request per call and never calls
    the refresh function. *)
Definition sendsOnce {B} {H : RoundTripper (E := E) B} (b : B) : Prop :=
  forall req st, grows st (snd (RoundTrip b req st)) 0 1.

(** The request of a replay. *)
Definition replayOf (req : Request E) (b : body) (tok : string) : Request E :=
  setBearer
    (withBody (Clone req (WithValue (reqCtx req) tokenRetryKey (BoolVal true))) b)
    tok.

(** The request carries an augmentation error. *)
Definition carriesError (req : Request E) : bool :=
  match Value (reqCtx req) tokenErrorKey with
  | Some (ErrorVal _) => true
  | _ => false
  end.

(** The body of a replay: the one GetBody produces when there is a
    GetBody, the body of the request otherwise; with the world after and
    what the trace records. *)
Definition regenerate (req : Request E) (w : E)
  : result body * E * list (Event E) :=
  match GetBody req with
  | Some getBody => let (r, w') := getBody w in (r, w', [GetBodyCalled])
  | None => (Ok (Body req), w, [])
  end.

(** What the trace records when the body of a response is closed. *)
Definition closing (resp : Response) : list (Event E) :=
  match RespBody resp with
  | nilBody => []
  | _ => [BodyClosed]
  end.

(** The cached token needs no refresh at the instant the world shows. *)
Definition fresh (p : tokenProvider E) (w : E) : Prop :=
  blank (token p) = false /\
  (refreshAt p = zeroTime \/ ~ (refreshAt p < clock w)).

(** The condition under which ensure calls the refresh function: the
    cache is blank, or refreshAt is set and the clock is past it. *)
Definition due (p : tokenProvider E) (w : E) : bool :=
  blank (token p) || (negb (IsZero (refreshAt p)) && After (clock w) (refreshAt p)).

(** The world moves on between two calls. *)
Definition evolve (f : E -> E) : M E unit := outside (fun w => (tt, f w)).

(** One call of ensure after each step of the world. *)
Fixpoint ensureEach (ctx : Ctx) (steps : list (E -> E)) : M E unit :=
  match steps with
  | [] => ret tt
  | f :: rest =>
      evolve f ;; _ <- ensureToken ctx theProvider ;; ensureEach ctx rest
  end.

(** Every call of [ensureEach] happens while the token of [p] is fresh. *)
Fixpoint freshAlong (p : tokenProvider E) (steps : list (E -> E)) (w : E) : Prop :=
  match steps with
  | [] => True
  | f :: rest => fresh p (f w) /\ freshAlong p rest (f w)
  end.

(** The cached token is empty or carries no surrounding white space. *)
Definition trimmed (st : State E) : Prop :=
  TrimSpace (token (provider st)) = token (provider st).

(** The deadline that setWithExpiry computes at the instant [now]. *)
Definition deadlineAt (now : Time) (ttl : Duration) : Time :=
  if 0 <? ttl then now + ttl - expiryBuffer ttl else zeroTime.

(** An option that configures nothing: a nil function or a blank URL. *)
Definition inertOption (opt : ProxyOption) : Prop :=
  opt = WithTokenFetcherFunc None \/
  opt = WithTokenRefreshFunc None \/
  (exists u, blank u = true /\ opt = WithTokenRefreshURL u).

(** The options the package offers. *)
Definition sourceOption (opt : ProxyOption) : Prop :=
  (exists f, opt = WithTokenFetcherFunc f) \/
  (exists f, opt = WithTokenRefreshFunc f) \/
  (exists u, opt = WithTokenRefreshURL u).


End Observations.

(** ** A scripted world

    A world small enough to run the program in: a clock that stands still
    and scripts of what the backend, the refresh function and the token
    endpoint answer, one entry per call. *)

Record Sim : Type := mkSim
  { simNow : Time
  ; simBackend : list Z
  ; simRefresh : list (result (string * Duration))
  ; simEndpoint : Z }.

Definition simSend (req : Request Sim) (w : Sim) : result Response * Sim :=
  match simBackend w with
  | [] => (Err (foreign 1), w)
  | code :: rest =>
      (Ok {| StatusCode := code; RespBody := NoBody |},
       {| simNow := simNow w; simBackend := rest;
          simRefresh := simRefresh w; simEndpoint := simEndpoint w |})
  end.

Definition simGet (ctx : Ctx) (url : string) (w : Sim) : result Response * Sim :=
  (Ok {| StatusCode := simEndpoint w; RespBody := reader "payload" |}, w).

(** The scripted world, for a token endpoint whose payload decodes to
    [payload]. *)
Definition simWorld (payload : result (string * Z)) : World Sim :=
  {| clock := simNow;
     backend := simSend;
     url_Parse := fun _ => None;
     http_NewRequest := fun _ => None;
     client_Get := simGet;
     json_Decode := fun _ => payload;
     baseDirector := fun _ req => req |}.

(** The world of the runs below: the token endpoint answers the payload
    of the test suite, access_token new-token and expires_in 3600. *)
#[export] Instance simW : World Sim := simWorld (Ok ("new-token", 3600)).

(** A refresh function that answers from the script. *)
Definition scriptedRefresh : tokenRefreshFunc Sim :=
  fun _ w =>
    match simRefresh w with
    | [] => (Err (foreign 2), w)
    | r :: rest =>
        (r, {| simNow := simNow w; simBackend := simBackend w;
               simRefresh := rest; simEndpoint := simEndpoint w |})
    end.

(** An initial-fetch function that answers [s]. *)
Definition constantFetch (s : string) : TokenFetcherFunc Sim := fun w => (s, w).

Definition simStart (now : Time) (codes : list Z)
  (tokens : list (result (string * Duration))) : State Sim :=
  {| world := {| simNow := now; simBackend := codes;
                 simRefresh := tokens; simEndpoint := 200 |};
     provider := emptyProvider;
     trace := [] |}.

(** A refresh function of the public kind that always answers [s]. *)
Definition constantRefresh (s : string) : TokenRefreshFunc Sim :=
  fun _ w => (Ok s, w).

(** A state whose provider holds [tok] until [deadline] and refreshes from
    the script. *)
Definition simServing (now : Time) (codes : list Z)
  (tokens : list (result (string * Duration))) (tok : string) (deadline : Time)
  : State Sim :=
  {| world := {| simNow := now; simBackend := codes;
                 simRefresh := tokens; simEndpoint := 200 |};
     provider := {| token := tok; refreshAt := deadline; fetch := None;
                    refresh := Some scriptedRefresh |};
     trace := [] |}.

Definition simProxy : ReverseProxy :=
  {| Director := tokenDirector "http://backend" theProvider;
     Transport := proxyTransport;
     ErrorHandler := fun _ => badGateway |}.

(** A request with a body that cannot be produced again. *)
Definition uploadRequest : Request Sim :=
  {| reqCtx := []; URLPath := "/upload"; Header := []; Body := reader "payload";
     GetBody := None |}.

(** The clock of the scripted world set to [t]. *)
Definition simAt (t : Time) (w : Sim) : Sim :=
  {| simNow := t; simBackend := simBackend w; simRefresh := simRefresh w;
     simEndpoint := simEndpoint w |}.

(** The state a proxy is in once it is built with an initial fetch that
    answers [s], whose trimmed form [tok] is cached. *)
Definition simFetched (s tok : string) : State Sim :=
  {| world := {| simNow := 1000; simBackend := []; simRefresh := [];
                 simEndpoint := 200 |};
     provider := {| token := tok; refreshAt := zeroTime;
                    fetch := Some (constantFetch s); refresh := None |};
     trace := [FetchCalled] |}.

(** A request whose body cannot be produced again: GetBody fails. *)
Definition brokenUpload : Request Sim :=
  {| reqCtx := []; URLPath := "/upload"; Header := []; Body := reader "payload";
     GetBody := Some (fun w => (Err (foreign 9), w)) |}.

(** A request whose body GetBody produces again. *)
Definition replayableUpload : Request Sim :=
  {| reqCtx := []; URLPath := "/upload"; Header := []; Body := reader "payload";
     GetBody := Some (fun w => (Ok (reader "payload"), w)) |}.

(** An environment with a backend URL and no token URL. *)
Definition backendOnly (key : string) : string :=
  if String.eqb key "BACKEND_URL" then "http://backend" else "".

Definition plainRequest : Request Sim :=
  {| reqCtx := []; URLPath := "/data"; Header := []; Body := nilBody;
     GetBody := None |}.

(** * Properties *)

(** ** White space *)

Section Trimming.

Variable ps : list bytes.

Lemma dropPrefix_Some p s r : dropPrefix p s = Some r <-> s = p ++ r.
Proof.
  revert s; induction p as [|a p IH]; intros s; simpl.
  - split; [intros [= ->] | intros ->]; reflexivity.
  - destruct s as [|c s]; [split; discriminate|].
    destruct (Ascii.eqb a c) eqn:Hac.
    + apply Ascii.eqb_eq in Hac; subst c. rewrite IH.
      split; [intros -> | intros [= ->]]; reflexivity.
    + split; [discriminate|]. intros [= <- _].
      rewrite Ascii.eqb_refl in Hac; discriminate.
Qed.

Lemma dropAny_Some s r :
  dropAny ps s = Some r -> exists p, In p ps /\ s = p ++ r.
Proof.
  induction ps as [|p qs IH]; simpl; [discriminate|].
  destruct (dropPrefix p s) as [r'|] eqn:Hp.
  - intros [= ->]. apply dropPrefix_Some in Hp. exists p; auto.
  - intros H; destruct (IH H) as (q & Hq & ->). exists q; auto.
Qed.

Lemma dropAny_prefix p s r :
  In p ps -> s = p ++ r -> dropAny ps s <> None.
Proof.
  induction ps as [|q qs IH]; simpl; [tauto|].
  intros [-> | Hin] Hs.
  - apply dropPrefix_Some in Hs. now rewrite Hs.
  - destruct (dropPrefix q s); [discriminate | auto].
Qed.

Lemma trimLeftN_suffix n s : exists pre, s = pre ++ trimLeftN ps n s.
Proof.
  revert s; induction n as [|n IH]; intros s; simpl.
  - now exists [].
  - destruct (dropAny ps s) as [r|] eqn:Hd; [|now exists []].
    destruct (dropAny_Some _ _ Hd) as (p & _ & ->).
    destruct (IH r) as [pre Hpre].
    exists (p ++ pre). rewrite <- app_assoc. now rewrite <- Hpre.
Qed.

Hypothesis nonempty : forallb (fun p => negb (Nat.eqb (List.length p) 0)) ps = true.

Lemma dropAny_shorter s r :
  dropAny ps s = Some r -> (List.length r < List.length s)%nat.
Proof.
  intros H. destruct (dropAny_Some _ _ H) as (p & Hin & ->).
  rewrite forallb_forall in nonempty. specialize (nonempty _ Hin).
  rewrite length_app. destruct p; simpl in *; [discriminate | lia].
Qed.

Lemma trimLeftN_clean n s :
  (List.length s <= n)%nat -> dropAny ps (trimLeftN ps n s) = None.
Proof.
  revert s; induction n as [|n IH]; intros s Hn; simpl.
  - destruct (dropAny ps s) eqn:Hd; [|reflexivity].
    apply dropAny_shorter in Hd. lia.
  - destruct (dropAny ps s) as [r|] eqn:Hd; [|exact Hd].
    apply IH. apply dropAny_shorter in Hd. lia.
Qed.

Lemma trimLeft_clean s : dropAny ps (trimLeft ps s) = None.
Proof. apply trimLeftN_clean. apply Nat.le_refl. Qed.

Lemma trimLeft_fixed s : dropAny ps s = None -> trimLeft ps s = s.
Proof.
  unfold trimLeft. destruct (List.length s); simpl; [reflexivity|].
  now intros ->.
Qed.

End Trimming.

Lemma trimRight_prefix ps s : exists suf, s = trimRight ps s ++ suf.
Proof.
  unfold trimRight, trimLeft.
  destruct (trimLeftN_suffix (map (@rev ascii) ps) (List.length (rev s)) (rev s))
    as [pre Hpre].
  exists (rev pre).
  rewrite <- rev_app_distr, <- Hpre. now rewrite rev_involutive.
Qed.

Lemma trimRight_keeps_clean ps s :
  dropAny ps s = None -> dropAny ps (trimRight ps s) = None.
Proof.
  intros Hs. destruct (dropAny ps (trimRight ps s)) as [r|] eqn:Hd; [|reflexivity].
  destruct (dropAny_Some _ _ _ Hd) as (p & Hin & Hp).
  destruct (trimRight_prefix ps s) as [suf Hsuf].
  exfalso. apply (dropAny_prefix ps p s (r ++ suf) Hin); [|exact Hs].
  rewrite Hsuf at 1. rewrite Hp. now rewrite app_assoc.
Qed.

Lemma trimRight_fixed ps s :
  forallb (fun p => negb (Nat.eqb (List.length p) 0)) (map (@rev ascii) ps) = true ->
  trimRight ps (trimRight ps s) = trimRight ps s.
Proof.
  intros Hne. unfold trimRight at 1 3.
  set (t := trimLeft _ (rev s)).
  unfold trimRight. rewrite rev_involutive.
  rewrite (trimLeft_fixed _ t); [reflexivity|].
  apply trimLeft_clean, Hne.
Qed.

Lemma spaceEncodings_nonempty :
  forallb (fun p => negb (Nat.eqb (List.length p) 0)) spaceEncodings = true.
Proof. reflexivity. Qed.

Lemma spaceEncodings_rev_nonempty :
  forallb (fun p => negb (Nat.eqb (List.length p) 0))
    (map (@rev ascii) spaceEncodings) = true.
Proof. reflexivity. Qed.

(** Trimming leaves nothing to trim. *)
Lemma TrimSpace_idempotent s : TrimSpace (TrimSpace s) = TrimSpace s.
Proof.
  unfold TrimSpace. rewrite list_ascii_of_string_of_list_ascii.
  set (x := trimLeft spaceEncodings (list_ascii_of_string s)).
  assert (Hx : dropAny spaceEncodings x = None)
    by apply trimLeft_clean, spaceEncodings_nonempty.
  rewrite (trimLeft_fixed _ (trimRight spaceEncodings x)).
  - now rewrite trimRight_fixed by apply spaceEncodings_rev_nonempty.
  - now apply trimRight_keeps_clean.
Qed.

Lemma TrimSpace_empty : TrimSpace "" = "".
Proof. reflexivity. Qed.

Lemma blank_false s : blank s = false <-> TrimSpace s <> "".
Proof. unfold blank. now rewrite String.eqb_neq. Qed.


Lemma blank_TrimSpace s : blank (TrimSpace s) = blank s.
Proof. unfold blank. now rewrite TrimSpace_idempotent. Qed.

(** ** The expiry buffer *)

Section ExpiryBuffer.

Context {E : Type} {W : World E}.

Ltac split_comparisons :=
  repeat match goal with
  | |- context [?a <? ?b] => destruct (Z.ltb_spec a b)
  | |- context [?a <=? ?b] => destruct (Z.leb_spec a b)
  | H : context [?a <? ?b] |- _ => destruct (Z.ltb_spec a b)
  | H : context [?a <=? ?b] |- _ => destruct (Z.leb_spec a b)
  end; cbn [andb orb negb] in *; try reflexivity;
  try (Z.div_mod_to_equations; lia).

(** For a positive lifetime the buffer of the code is the one the
    specification computes. *)
Lemma expiryBuffer_specBuffer ttl : 0 < ttl -> expiryBuffer ttl = specBuffer ttl.
Proof.
  intros Hpos. unfold expiryBuffer, specBuffer, unit_.
  rewrite !Z.quot_div_nonneg by lia.
  change (1 * Second) with Second. reflexivity.
Qed.

Lemma expiryBuffer_bounds ttl : 0 < ttl -> 0 <= expiryBuffer ttl <= 30 * Second.
Proof.
  intros Hpos. unfold expiryBuffer, defaultExpiryBuffer, Second.
  rewrite !Z.quot_div_nonneg by lia.
  change (30 * 1000000000) with 30000000000.
  cbv zeta. split_comparisons.
Qed.

Lemma wrap64_small z : int64_range z -> wrap64 z = z.
Proof.
  unfold int64_range, wrap64. intros H.
  rewrite Z.mod_small by lia. lia.
Qed.

(** The closed form of the buffer: half of a lifetime below ten
    nanoseconds, a tenth of it up to 300 s but at least one second from two
    seconds on, and the default 30 s beyond. *)
Lemma expiryBuffer_closed ttl :
  0 < ttl ->
  expiryBuffer ttl =
    if ttl <? 10 then ttl ÷ 2
    else if ttl <? 2 * Second then ttl ÷ 10
    else if ttl <? 10 * Second then Second
    else if ttl <? 300 * Second then ttl ÷ 10
    else 30 * Second.
Proof.
  intros Hpos. unfold expiryBuffer, defaultExpiryBuffer, Second.
  rewrite !Z.quot_div_nonneg by lia.
  change (30 * 1000000000) with 30000000000.
  cbv zeta. split_comparisons.
Qed.

(** C3: setWithExpiry installs the token and the deadline exactly as the
    specification's installWithTTL words it: for a lifetime that is not
    positive the token is stored and refreshAt is the never-expires
    sentinel; otherwise refreshAt is now + ttl - b for the buffer b of the
    four steps (30 units, lowered to ttl/10, lowered to ttl/2, raised to 1
    unit). *)
Theorem setWithExpiry_refines_installWithTTL
  (tok : string) (ttl : Duration) (st : State E) :
  setWithExpiry tok ttl st =
    (tt, {| world := world st;
            provider := installWithTTL_spec (clock (world st)) tok ttl (provider st);
            trace := trace st |}).
Proof.
  unfold setWithExpiry, installWithTTL_spec, bind, getProvider, putProvider, Now, ret.
  destruct (Z.ltb_spec 0 ttl) as [Hpos | Hle].
  - destruct (Z.leb_spec ttl 0) as [Hbad | _]; [lia|]. simpl.
    pose proof (expiryBuffer_bounds ttl Hpos) as Hb.
    rewrite wrap64_small by (unfold int64_range, Second in *; lia).
    rewrite expiryBuffer_specBuffer by exact Hpos.
    reflexivity.
  - destruct (Z.leb_spec ttl 0) as [_ | Hbad]; [reflexivity | lia].
Qed.

(** C8, as amended: for a lifetime strictly between 0 and 2 seconds the
    buffer is ttl/2 when ttl/10 is not positive (a lifetime below ten
    nanoseconds) and ttl/10 otherwise. *)
Theorem expiryBuffer_below_two_seconds (ttl : Duration) :
  0 < ttl < 2 * Second ->
  expiryBuffer ttl = if 0 <? ttl ÷ 10 then ttl ÷ 10 else ttl ÷ 2.
Proof.
  intros [Hpos Hlt]. rewrite expiryBuffer_closed by exact Hpos.
  rewrite !Z.quot_div_nonneg by lia.
  unfold Second in *. split_comparisons.
Qed.

End ExpiryBuffer.

(** ** The credential cache *)

Ltac run :=
  cbv [bind ret getProvider putProvider emit outside Now callRefresh
       current set evolve closeBody] in *;
  cbn [fst snd world provider trace] in *.

(** Case analysis on an innermost scrutinee of the goal. *)
Ltac break_match :=
  match goal with
  | |- context [match ?x with _ => _ end] =>
      lazymatch x with
      | context [match _ with _ => _ end] => fail
      | _ => destruct x eqn:?
      end
  end.

Section Cache.

Context {E : Type} {W : World E}.

Lemma refreshCalls_app (a b : list (Event E)) :
  refreshCalls (a ++ b) = (refreshCalls a + refreshCalls b)%nat.
Proof. unfold refreshCalls. now rewrite filter_app, length_app. Qed.

Lemma dispatches_app (a b : list (Event E)) :
  dispatches (a ++ b) = (dispatches a + dispatches b)%nat.
Proof. unfold dispatches. now rewrite filter_app, length_app. Qed.

(** A fresh token is answered from the cache: nothing changes, nothing is
    called. *)
Lemma ensureToken_hit ctx (st : State E) :
  fresh (provider st) (world st) ->
  ensureToken ctx theProvider st = (Ok (token (provider st)), st).
Proof.
  intros [Hblank Hdue]. unfold ensureToken. run.
  destruct (refresh (provider st)); rewrite Hblank; [|reflexivity].
  replace (negb (IsZero (refreshAt (provider st)))
           && After (clock (world st)) (refreshAt (provider st))) with false;
    [reflexivity|].
  unfold IsZero, After. symmetry. apply andb_false_iff.
  destruct Hdue as [-> | Hnot].
  - left. reflexivity.
  - right. apply Z.ltb_ge. lia.
Qed.

Lemma ensureEach_cons ctx f rest (st : State E) :
  ensureEach ctx (f :: rest) st =
  ensureEach ctx rest
    (snd (ensureToken ctx theProvider
            {| world := f (world st); provider := provider st;
               trace := trace st |})).
Proof.
  cbn [ensureEach]. unfold bind, evolve, outside.
  now destruct (ensureToken ctx theProvider _).
Qed.

(** Calls made while the token stays fresh leave the provider and the
    trace as they were. *)
Lemma ensureEach_fresh ctx steps (st : State E) :
  freshAlong (provider st) steps (world st) ->
  provider (snd (ensureEach ctx steps st)) = provider st /\
  trace (snd (ensureEach ctx steps st)) = trace st.
Proof.
  revert st. induction steps as [|f rest IH]; intros st Hfresh.
  - split; reflexivity.
  - destruct Hfresh as [Hnow Hrest]. rewrite ensureEach_cons.
    set (st1 := {| world := f (world st); provider := provider st;
                   trace := trace st |}).
    rewrite (ensureToken_hit ctx st1) by exact Hnow.
    apply (IH st1). exact Hrest.
Qed.

(** One call of ensure invokes the refresh function at most once. *)
Lemma ensureToken_refresh_once ctx p (st : State E) :
  (refreshCalls (trace (snd (ensureToken ctx p st)))
   <= S (refreshCalls (trace st)))%nat.
Proof.
  unfold ensureToken, setWithExpiry, refreshCalls. destruct p; run; [simpl; lia|].
  repeat (break_match; cbn [fst snd world provider trace]);
    rewrite ?filter_app, ?length_app; cbn; lia.
Qed.

(** C5: a provider whose cached token is not blank and whose refreshAt is
    the never-expires sentinel or not earlier than the current time
    answers ensure with the cached token without invoking the refresh
    function; calls of ensure repeated while that holds change neither the
    provider nor the trace, so that, counted from before the call of ensure
    that produced the state, the refresh function is invoked at most
    once in total. *)
Theorem ensureToken_cache_hit ctx (st : State E) (steps : list (E -> E)) :
  fresh (provider st) (world st) ->
  freshAlong (provider st) steps (world st) ->
  ensureToken ctx theProvider st = (Ok (token (provider st)), st) /\
  provider (snd (ensureEach ctx steps st)) = provider st /\
  refreshCalls (trace (snd (ensureEach ctx steps st))) = refreshCalls (trace st) /\
  (forall ctx0 st0,
      snd (ensureToken ctx0 theProvider st0) = st ->
      (refreshCalls (trace (snd (ensureEach ctx steps st)))
       <= S (refreshCalls (trace st0)))%nat).
Proof.
  intros Hnow Hsteps.
  destruct (ensureEach_fresh ctx steps st Hsteps) as [Hp Ht].
  repeat split.
  - now apply ensureToken_hit.
  - exact Hp.
  - now rewrite Ht.
  - intros ctx0 st0 <-. rewrite Ht. apply ensureToken_refresh_once.
Qed.

End Cache.

(** ** The token that is installed *)

Section Installed.

Context {E : Type} {W : World E}.

Lemma setWithExpiry_provider tok ttl (st : State E) :
  exists deadline,
    setWithExpiry tok ttl st =
      (tt, {| world := world st;
              provider := {| token := tok; refreshAt := deadline;
                             fetch := fetch (provider st);
                             refresh := refresh (provider st) |};
              trace := trace st |}).
Proof.
  unfold setWithExpiry. run. destruct (0 <? ttl); eexists; reflexivity.
Qed.

Lemma nonempty_trimmed_not_blank s :
  TrimSpace s = s -> s <> "" -> blank s = false.
Proof. intros Ht Hs. apply blank_false. now rewrite Ht. Qed.




End Installed.

(** ** The invariant of the cache *)

Section Invariant.

Context {E : Type} {W : World E}.


Lemma evolve_trimmed f (st : State E) :
  trimmed st -> trimmed (snd (evolve f st)).
Proof. intros H. exact H. Qed.





(** No option the package offers touches the token. *)
Lemma sourceOptions_token opts (cfg : proxyConfig) :
  Forall sourceOption opts ->
  token (cfgProvider (fold_left (fun c opt => opt c) opts cfg))
  = token (cfgProvider cfg).
Proof.
  intros Hall. revert cfg. induction Hall as [|opt rest Hopt _ IH]; intros cfg.
  - reflexivity.
  - cbn [fold_left]. rewrite IH.
    destruct Hopt as [[f ->] | [[f ->] | [u ->]]].
    + unfold WithTokenFetcherFunc. now destruct f.
    + unfold WithTokenRefreshFunc. now destruct f.
    + unfold WithTokenRefreshURL. now destruct (blank u).
Qed.



End Invariant.

(** ** Blank credentials *)

Section BlankCredentials.

Context {E : Type} {W : World E}.

Lemma fresh_due (p : tokenProvider E) (w : E) : fresh p w <-> due p w = false.
Proof.
  unfold fresh, due, IsZero, After. rewrite orb_false_iff, andb_false_iff.
  rewrite negb_false_iff, Z.eqb_eq, Z.ltb_ge. intuition lia.
Qed.

(** A blank answer of the refresh function fails forceRefresh and leaves
    the provider as it was. *)
Lemma forceRefresh_blank ctx (st : State E) f raw ttl w' :
  refresh (provider st) = Some f ->
  f ctx (world st) = (Ok (raw, ttl), w') ->
  blank raw = true ->
  forceRefresh ctx theProvider st =
    (Err errTokenEmpty,
     {| world := w'; provider := provider st;
        trace := trace st ++ [RefreshCalled] |}).
Proof.
  intros Hf Hcall Hblank. unfold forceRefresh. run.
  rewrite Hf. cbn. rewrite Hcall. cbn.
  unfold blank in Hblank. now rewrite Hblank.
Qed.


(** Without a refresh function a blank cache fails ensure. *)
Lemma ensureToken_unset ctx (st : State E) :
  refresh (provider st) = None ->
  blank (token (provider st)) = true ->
  ensureToken ctx theProvider st = (Err errTokenEmpty, st).
Proof.
  intros Hf Hblank. unfold ensureToken. run. now rewrite Hf, Hblank.
Qed.


(** Every failure of ensure on a provider that exists is the error
    "token is empty" or the error of its refresh function. *)
Lemma ensureToken_failure ctx (st st' : State E) e :
  ensureToken ctx theProvider st = (Err e, st') ->
  e = errTokenEmpty \/
  (exists f w', refresh (provider st) = Some f /\
                f ctx (world st) = (Err e, w')).
Proof.
  unfold ensureToken. run.
  destruct (refresh (provider st)) as [f|].
  - destruct (blank (token (provider st)) || _); [|discriminate].
    destruct (f ctx (world st)) as [[[raw ttl]|err] w'] eqn:Hcall;
      cbn [fst snd world provider trace].
    + destruct (TrimSpace raw =? "")%string; [intros [= <- _]; now left|].
      destruct (setWithExpiry_provider (TrimSpace raw) ttl
                  {| world := w'; provider := provider st;
                     trace := trace st ++ [RefreshCalled] |}) as [deadline ->].
      discriminate.
    + intros [= <- _]. right. eauto.
  - destruct (blank (token (provider st))); [|discriminate].
    intros [= <- _]. now left.
Qed.

(** C7, as amended: ensure fails with EmptyCredential (token is empty)
    whenever the provider has no refresh function configured and the
    cached token is blank; on a provider that exists every failure of
    ensure is that error or the error of the refresh function as it is, so
    that without refresh function ensure never fails with NotConfigured;
    ensure itself fails with NotConfigured when the provider does not
    exist. *)
Theorem ensureToken_no_source ctx (st : State E) :
  (refresh (provider st) = None ->
   blank (token (provider st)) = true ->
   ensureToken ctx theProvider st = (Err errTokenEmpty, st)) /\
  (forall e st',
      ensureToken ctx theProvider st = (Err e, st') ->
      e = errTokenEmpty \/
      (exists f w', refresh (provider st) = Some f /\
                    f ctx (world st) = (Err e, w'))) /\
  (refresh (provider st) = None ->
   forall e st',
     ensureToken ctx theProvider st = (Err e, st') ->
     classify e = EmptyCredential /\ classify e <> NotConfigured) /\
  classify errTokenEmpty = EmptyCredential /\
  ensureToken ctx nilProvider st = (Err errProviderNotConfigured, st) /\
  classify errProviderNotConfigured = NotConfigured.
Proof.
  split; [|split; [|split]].
  - intros Hf Hblank. now apply ensureToken_unset.
  - intros e st'. apply ensureToken_failure.
  - intros Hnone e st' Hrun.
    destruct (ensureToken_failure ctx st st' e Hrun) as [-> | (f & w' & Hf & _)].
    + split; [reflexivity | discriminate].
    + congruence.
  - repeat split.
Qed.


End BlankCredentials.

(** ** What the calls add to the trace *)

Section Traces.

Context {E : Type} {W : World E}.

Lemma grows_refl (st : State E) r d : grows st st r d.
Proof.
  exists []. rewrite app_nil_r. repeat split; cbn; lia.
Qed.

Lemma grows_trans (a b c : State E) r1 d1 r2 d2 r d :
  grows a b r1 d1 -> grows b c r2 d2 ->
  (r1 + r2 <= r)%nat -> (d1 + d2 <= d)%nat -> grows a c r d.
Proof.
  intros (e1 & H1 & Hr1 & Hd1) (e2 & H2 & Hr2 & Hd2) Hr Hd.
  exists (e1 ++ e2). rewrite H2, H1, app_assoc.
  rewrite refreshCalls_app, dispatches_app. repeat split; lia.
Qed.

Lemma grows_weaken (a b : State E) r d r' d' :
  grows a b r d -> (r <= r')%nat -> (d <= d')%nat -> grows a b r' d'.
Proof.
  intros (evs & Ht & Hr & Hd) Hr' Hd'. exists evs. repeat split; auto; lia.
Qed.

Lemma grows_emit (st : State E) ev r d :
  ((if isRefresh ev then 1 else 0) <= r)%nat ->
  ((if isDispatch ev then 1 else 0) <= d)%nat ->
  grows st {| world := world st; provider := provider st;
              trace := trace st ++ [ev] |} r d.
Proof.
  intros Hr Hd. exists [ev]. repeat split.
  - unfold refreshCalls. cbn. now destruct (isRefresh ev).
  - unfold dispatches. cbn. now destruct (isDispatch ev).
Qed.

Lemma grows_same_trace (st st' : State E) r d :
  trace st' = trace st -> grows st st' r d.
Proof.
  intros Ht. exists []. rewrite app_nil_r. repeat split; cbn; auto; lia.
Qed.

(** forceRefresh calls the refresh function at most once and sends
    nothing. *)
Lemma forceRefresh_grows ctx p (st : State E) :
  grows st (snd (forceRefresh ctx p st)) 1 0.
Proof.
  unfold forceRefresh, setWithExpiry. destruct p; run;
    [apply grows_refl|].
  destruct (refresh (provider st)) as [f|]; [|apply grows_refl].
  destruct (f ctx (world st)) as [[[raw ttl]|err] w']; cbn;
    [|now apply grows_emit].
  destruct (TrimSpace raw =? "")%string; cbn; [now apply grows_emit|].
  destruct (0 <? ttl); cbn; now apply grows_emit.
Qed.

(** So does ensure. *)
Lemma ensureToken_grows ctx p (st : State E) :
  grows st (snd (ensureToken ctx p st)) 1 0.
Proof.
  unfold ensureToken, setWithExpiry. destruct p; run;
    [apply grows_refl|].
  destruct (refresh (provider st)) as [f|].
  - destruct (blank (token (provider st)) || _); [|apply grows_refl].
    destruct (f ctx (world st)) as [[[raw ttl]|err] w']; cbn;
      [|now apply grows_emit].
    destruct (TrimSpace raw =? "")%string; cbn; [now apply grows_emit|].
    destruct (0 <? ttl); cbn; now apply grows_emit.
  - destruct (blank (token (provider st))); apply grows_refl.
Qed.

Lemma httpTransport_sendsOnce : sendsOnce DefaultTransport.
Proof.
  intros req st. unfold RoundTrip, httpTransport_RoundTripper. run.
  destruct (backend req (world st)) as [r w']. cbn.
  exists [Dispatched req]. repeat split; cbn; lia.
Qed.

Lemma tokenErrorTransport_sendsOnce {B} {H : RoundTripper (E := E) B} (b : B) :
  sendsOnce b -> sendsOnce {| errBase := b |}.
Proof.
  intros Hb req st. unfold RoundTrip at 1, tokenErrorTransport_RoundTripper.
  destruct (Value (reqCtx req) tokenErrorKey) as [[err|flag]|]; cbn;
    auto using grows_refl, Hb.
Qed.

End Traces.

(** ** The retry transport *)

Section Retry.

Context {E : Type} {W : World E}.
Context {B : Type} {H : RoundTripper (E := E) B}.

Implicit Types (t : tokenRetryTransport B) (req : Request E) (st : State E).

(** A failure of the first dispatch is returned as it is. *)
Lemma retry_failure t req st err st1 :
  RoundTrip (retryBase t) req st = (Err err, st1) ->
  RoundTrip t req st = (Err err, st1).
Proof.
  intros Hbase. unfold RoundTrip at 1, tokenRetryTransport_RoundTripper.
  unfold bind at 1. now rewrite Hbase.
Qed.

(** The answer of the first dispatch is returned as it is as soon as one
    of the conditions of a replay fails. *)
Lemma retry_declined t req st resp st1 :
  RoundTrip (retryBase t) req st = (Ok resp, st1) ->
  StatusCode resp <> StatusUnauthorized \/
  marked req \/
  retryProvider t = nilProvider \/
  refresh (provider st1) = None \/
  notReplayable req = true ->
  RoundTrip t req st = (Ok resp, st1).
Proof.
  intros Hbase Hwhy. unfold RoundTrip at 1, tokenRetryTransport_RoundTripper.
  unfold bind at 1. rewrite Hbase.
  destruct (Z.eqb_spec (StatusCode resp) StatusUnauthorized) as [H401|];
    [cbn [negb] | reflexivity].
  destruct (Value (reqCtx req) tokenRetryKey) eqn:Hmark; [reflexivity|].
  destruct (retryProvider t) eqn:Hptr; [reflexivity|].
  run. destruct (refresh (provider st1)) eqn:Hrefresh; [|reflexivity].
  destruct (notReplayable req) eqn:Hbody; [reflexivity|].
  exfalso. unfold marked in Hwhy. rewrite Hmark in Hwhy.
  destruct Hwhy as [? | [? | [? | [? | ?]]]]; congruence.
Qed.

Lemma replayOf_marked req b tok : marked (replayOf req b tok).
Proof. unfold marked. cbn. discriminate. Qed.

(** Every way a call of the retry transport can go: the first answer as
    it is; or the failure of the forced refresh; or, after a successful
    forced refresh, the failure of the body regeneration or the answer of
    the one replay, as it is. *)
Lemma retry_outcomes t req st :
  RoundTrip t req st = RoundTrip (retryBase t) req st
  \/ (exists resp st1 err st2,
        RoundTrip (retryBase t) req st = (Ok resp, st1) /\
        forceRefresh (reqCtx req) theProvider st1 = (Err err, st2) /\
        RoundTrip t req st = (Err err, st2))
  \/ (exists resp st1 tok st2 st3,
        RoundTrip (retryBase t) req st = (Ok resp, st1) /\
        StatusCode resp = StatusUnauthorized /\
        ~ marked req /\
        forceRefresh (reqCtx req) theProvider st1 = (Ok tok, st2) /\
        provider st3 = provider st2 /\ grows st2 st3 0 0 /\
        ((exists bodyErr, RoundTrip t req st = (Err bodyErr, st3)) \/
         (exists b, RoundTrip t req st
                    = RoundTrip (retryBase t) (replayOf req b tok) st3))).
Proof.
  destruct (RoundTrip (retryBase t) req st) as [[resp|err] st1] eqn:Hbase;
    [|left; now apply retry_failure].
  destruct (Z.eq_dec (StatusCode resp) StatusUnauthorized) as [H401|Hother];
    [|left; apply (retry_declined _ _ _ _ _ Hbase); auto].
  destruct (Value (reqCtx req) tokenRetryKey) eqn:Hmark;
    [left; apply (retry_declined _ _ _ _ _ Hbase); right; left;
     unfold marked; congruence|].
  destruct (retryProvider t) eqn:Hptr;
    [left; apply (retry_declined _ _ _ _ _ Hbase); auto|].
  destruct (refresh (provider st1)) eqn:Hrefresh;
    [|left; apply (retry_declined _ _ _ _ _ Hbase); auto].
  destruct (notReplayable req) eqn:Hbody;
    [left; apply (retry_declined _ _ _ _ _ Hbase); auto 6|].
  right.
  assert (Hrun : RoundTrip t req st =
    (fr <- forceRefresh (reqCtx req) theProvider ;;
     match fr with
     | Err err => ret (Err err)
     | Ok tok =>
         closeBody resp ;;
         match GetBody req with
         | Some getBody =>
             b <- (emit GetBodyCalled ;; outside getBody) ;;
             match b with
             | Err bodyErr => ret (Err bodyErr)
             | Ok body' => RoundTrip (retryBase t) (replayOf req body' tok)
             end
         | None => RoundTrip (retryBase t) (replayOf req (Body req) tok)
         end
     end) st1).
  { unfold RoundTrip at 1, tokenRetryTransport_RoundTripper.
    unfold bind at 1. rewrite Hbase.
    apply Z.eqb_eq in H401. rewrite H401. cbn [negb].
    rewrite Hmark, Hptr. unfold bind at 1, getProvider at 1.
    rewrite Hrefresh, Hbody. unfold replayOf, withBody, setBearer, Clone.
    cbn. destruct req; reflexivity. }
  unfold bind at 1 in Hrun.
  destruct (forceRefresh (reqCtx req) theProvider st1) as [[tok|err] st2] eqn:Hforce.
  - right. exists resp, st1, tok, st2.
    assert (Hclose : provider (snd (closeBody resp st2)) = provider st2 /\
                     grows st2 (snd (closeBody resp st2)) 0 0).
    { unfold closeBody. destruct (RespBody resp); run;
        (split; [reflexivity|]); auto using grows_refl;
        now apply grows_emit. }
    unfold bind at 1 in Hrun. destruct (closeBody resp st2) as [[] st3].
    cbn [snd] in Hclose. destruct Hclose as [Hp3 Hg3].
    destruct (GetBody req) as [getBody|].
    + run. destruct (getBody (world st3)) as [[body'|bodyErr] w'] eqn:Hget;
        exists {| world := w'; provider := provider st3;
                  trace := trace st3 ++ [GetBodyCalled] |};
        (split; [reflexivity|]); (split; [exact H401|]);
        (split; [unfold marked; now rewrite Hmark|]);
        (split; [exact Hforce|]); (split; [exact Hp3|]);
        (split; [eapply grows_trans;
                   [exact Hg3 | now apply grows_emit | reflexivity..]|]).
      * right. exists body'. exact Hrun.
      * left. exists bodyErr. exact Hrun.
    + exists st3.
      (split; [reflexivity|]); (split; [exact H401|]);
        (split; [unfold marked; now rewrite Hmark|]);
        (split; [exact Hforce|]); (split; [exact Hp3|]);
        (split; [exact Hg3|]).
      right. exists (Body req). exact Hrun.
  - left. exists resp, st1, err, st2. auto.
Qed.

(** The steps of a call of the retry transport after a rejection that
    may be replayed. *)
Lemma retry_continues t req st resp st1 f :
  RoundTrip (retryBase t) req st = (Ok resp, st1) ->
  StatusCode resp = StatusUnauthorized ->
  Value (reqCtx req) tokenRetryKey = None ->
  retryProvider t = theProvider ->
  refresh (provider st1) = Some f ->
  notReplayable req = false ->
  RoundTrip t req st =
    (fr <- forceRefresh (reqCtx req) theProvider ;;
     match fr with
     | Err err => ret (Err err)
     | Ok tok =>
         closeBody resp ;;
         match GetBody req with
         | Some getBody =>
             b <- (emit GetBodyCalled ;; outside getBody) ;;
             match b with
             | Err bodyErr => ret (Err bodyErr)
             | Ok body' => RoundTrip (retryBase t) (replayOf req body' tok)
             end
         | None => RoundTrip (retryBase t) (replayOf req (Body req) tok)
         end
     end) st1.
Proof.
  intros Hbase H401 Hmark Hptr Hrefresh Hbody.
  unfold RoundTrip at 1, tokenRetryTransport_RoundTripper.
  unfold bind at 1. rewrite Hbase.
  apply Z.eqb_eq in H401. rewrite H401. cbn [negb].
  rewrite Hmark, Hptr. unfold bind at 1, getProvider at 1.
  rewrite Hrefresh, Hbody. unfold replayOf, withBody, setBearer, Clone.
  cbn. destruct req; reflexivity.
Qed.

Lemma closeBody_run resp st :
  closeBody resp st =
    (tt, {| world := world st; provider := provider st;
            trace := trace st ++ closing resp |}).
Proof.
  unfold closeBody, closing. destruct (RespBody resp); run;
    rewrite ?app_nil_r; destruct st; reflexivity.
Qed.

End Retry.

Section RetryProperties.

Context {E : Type} {W : World E}.
Context {B : Type} {H : RoundTripper (E := E) B}.

Implicit Types (t : tokenRetryTransport B) (req : Request E) (st : State E).

(** A call of the retry transport calls the refresh function at most once
    and sends at most two requests. *)
Lemma retry_grows t req st :
  sendsOnce (retryBase t) -> grows st (snd (RoundTrip t req st)) 1 2.
Proof.
  intros Hbase.
  destruct (retry_outcomes t req st)
    as [Hsame | [(resp & st1 & err & st2 & H1 & Hforce & Hrun)
               | (resp & st1 & tok & st2 & st3 & H1 & _ & _ & Hforce & _ & Hquiet & Hrun)]].
  - rewrite Hsame. eapply grows_weaken; [apply Hbase | lia | lia].
  - rewrite Hrun. cbn [snd].
    pose proof (Hbase req st) as Hg1. rewrite H1 in Hg1.
    pose proof (forceRefresh_grows (reqCtx req) theProvider st1) as Hg2.
    rewrite Hforce in Hg2.
    eapply grows_trans; [exact Hg1 | exact Hg2 | lia | lia].
  - pose proof (Hbase req st) as Hg1. rewrite H1 in Hg1.
    pose proof (forceRefresh_grows (reqCtx req) theProvider st1) as Hg2.
    rewrite Hforce in Hg2. cbn [snd] in Hg1, Hg2.
    assert (Hg12 : grows st st2 1 1)
      by (eapply grows_trans; [exact Hg1 | exact Hg2 | lia | lia]).
    assert (Hg3 : grows st st3 1 1)
      by (eapply grows_trans; [exact Hg12 | exact Hquiet | lia | lia]).
    destruct Hrun as [[bodyErr Hrun] | [b Hrun]]; rewrite Hrun.
    + cbn [snd]. eapply grows_weaken; [exact Hg3 | lia | lia].
    + eapply grows_trans; [exact Hg3 | apply Hbase | lia | lia].
Qed.

(** C1: the retry transport performs at most one replay per request. A
    request that carries the retry marker is answered by its one dispatch,
    whatever the status; for every request at most two requests reach
    the inner transport and the refresh function is called at most once;
    and after a rejection that may be replayed the call is exactly this:
    the failure of the forced refresh, or the failure of the body
    regeneration, or the outcome of the one dispatch of the replay, whose
    request carries the marker, returned as it is, be it a 401 again, in
    the state that dispatch leaves. *)
Theorem retry_at_most_once t req st :
  sendsOnce (retryBase t) ->
  (marked req -> RoundTrip t req st = RoundTrip (retryBase t) req st) /\
  grows st (snd (RoundTrip t req st)) 1 2 /\
  (forall resp st1 f,
      RoundTrip (retryBase t) req st = (Ok resp, st1) ->
      StatusCode resp = StatusUnauthorized ->
      ~ marked req ->
      retryProvider t = theProvider ->
      refresh (provider st1) = Some f ->
      notReplayable req = false ->
      match forceRefresh (reqCtx req) theProvider st1 with
      | (Err err, st2) => RoundTrip t req st = (Err err, st2)
      | (Ok tok, st2) =>
          match regenerate req (world st2) with
          | (Err bodyErr, w3, evs) =>
              RoundTrip t req st =
                (Err bodyErr,
                 {| world := w3; provider := provider st2;
                    trace := trace st2 ++ closing resp ++ evs |})
          | (Ok b, w3, evs) =>
              marked (replayOf req b tok) /\
              RoundTrip t req st =
                RoundTrip (retryBase t) (replayOf req b tok)
                  {| world := w3; provider := provider st2;
                     trace := trace st2 ++ closing resp ++ evs |}
          end
      end).
Proof.
  intros Hbase. split; [|split].
  - intros Hmarked.
    destruct (RoundTrip (retryBase t) req st) as [[resp|err] st1] eqn:H1.
    + apply (retry_declined _ _ _ _ _ H1). auto.
    + now apply retry_failure.
  - now apply retry_grows.
  - intros resp st1 f H1 H401 Hunmarked Hptr Hrefresh Hbody.
    assert (Hmark : Value (reqCtx req) tokenRetryKey = None).
    { unfold marked in Hunmarked.
      destruct (Value (reqCtx req) tokenRetryKey); [|reflexivity].
      exfalso. apply Hunmarked. discriminate. }
    pose proof (retry_continues t req st resp st1 f H1 H401 Hmark Hptr Hrefresh
                  Hbody) as Hrun.
    unfold bind at 1 in Hrun.
    destruct (forceRefresh (reqCtx req) theProvider st1) as [[tok|err] st2];
      [|exact Hrun].
    unfold bind at 1 in Hrun. rewrite closeBody_run in Hrun.
    cbn [world provider trace] in Hrun. unfold regenerate.
    destruct (GetBody req) as [getBody|].
    + run. destruct (getBody (world st2)) as [[b|bodyErr] w3];
        cbn [fst snd world provider trace] in *;
        rewrite <- app_assoc in Hrun.
      * split; [apply replayOf_marked | exact Hrun].
      * exact Hrun.
    + rewrite app_nil_r. split; [apply replayOf_marked | exact Hrun].
Qed.

(** C4: a request whose body is a reader of its own, neither nil nor
    http.NoBody, and that has no GetBody function is never replayed: when
    its dispatch is answered with 401 that response is the answer, the
    state is the one the dispatch left, and so no forced refresh took
    place. *)
Theorem unreplayable_body_not_retried t req st resp st1 content :
  Body req = reader content ->
  GetBody req = None ->
  RoundTrip (retryBase t) req st = (Ok resp, st1) ->
  StatusCode resp = StatusUnauthorized ->
  RoundTrip t req st = (Ok resp, st1) /\
  (sendsOnce (retryBase t) -> grows st (snd (RoundTrip t req st)) 0 1).
Proof.
  intros Hbody Hget H1 _.
  assert (Hrun : RoundTrip t req st = (Ok resp, st1)).
  { apply (retry_declined _ _ _ _ _ H1). do 4 right.
    unfold notReplayable. now rewrite Hbody, Hget. }
  split; [exact Hrun|]. intros Hbase. rewrite Hrun, <- H1. apply Hbase.
Qed.

(** C10: only status 401 is an authorization rejection. A response with
    any other status, 403 included, is the answer of the call, and the
    state is the one the dispatch left: no forced refresh and no replay
    took place. *)
Theorem retry_only_on_unauthorized t req st resp st1 :
  RoundTrip (retryBase t) req st = (Ok resp, st1) ->
  StatusCode resp <> StatusUnauthorized ->
  RoundTrip t req st = (Ok resp, st1) /\
  (sendsOnce (retryBase t) -> grows st (snd (RoundTrip t req st)) 0 1).
Proof.
  intros H1 Hstatus.
  assert (Hrun : RoundTrip t req st = (Ok resp, st1))
    by (apply (retry_declined _ _ _ _ _ H1); auto).
  split; [exact Hrun|]. intros Hbase. rewrite Hrun, <- H1. apply Hbase.
Qed.

End RetryProperties.

(** ** The error-propagation transport *)

Section ErrorPropagation.

Context {E : Type} {W : World E}.

(** A request that carries an augmentation error is failed with it and
    the inner transport is not called: the state stays as it is. *)
Lemma tokenErrorTransport_blocks {B} {H : RoundTripper (E := E) B} (b : B)
  (req : Request E) (st : State E) err :
  Value (reqCtx req) tokenErrorKey = Some (ErrorVal err) ->
  RoundTrip {| errBase := b |} req st = (Err err, st).
Proof.
  intros Hctx. unfold RoundTrip at 1, tokenErrorTransport_RoundTripper.
  now rewrite Hctx.
Qed.

(** The three hooks of a proxy that newReverseProxy built. *)
Lemma newReverseProxy_hooks url opts (st0 st1 : State E) proxy :
  newReverseProxy url opts st0 = (Ok proxy, st1) ->
  Director proxy = tokenDirector url theProvider /\
  Transport proxy = proxyTransport /\
  ErrorHandler proxy = fun _ => badGateway.
Proof.
  unfold newReverseProxy.
  destruct (blank url); [discriminate|].
  destruct (url_Parse url); [discriminate|].
  set (cfg := fold_left (fun c opt => opt c) opts {| cfgProvider := emptyProvider |}).
  destruct (fetch (cfgProvider cfg)) as [f|].
  - run. destruct (f (world st0)) as [s w'].
    destruct (TrimSpace s =? "")%string; intros [= <- _]; auto.
  - destruct (refresh (cfgProvider cfg)); [|discriminate].
    run. intros [= <- _]. auto.
Qed.

Lemma grows_dispatches (st st' : State E) r :
  grows st st' r 0 -> dispatches (trace st') = dispatches (trace st).
Proof.
  intros (evs & -> & _ & Hd). rewrite dispatches_app. lia.
Qed.

(** C2: when ensure fails, the director records the error on the context
    of the outbound request; the error-propagation transport fails every
    request that carries such an error with exactly that error, leaving the
    state as it is, the inner transport not being called, and so does the
    retry transport above it; the request is answered with the
    upstream-failure status and no request has reached the backend. *)
Theorem augmentation_error_stops_request
  url opts (st0 st1 : State E) proxy (req : Request E) (st st' : State E) err :
  newReverseProxy url opts st0 = (Ok proxy, st1) ->
  ensureToken (reqCtx (baseDirector url req)) theProvider st = (Err err, st') ->
  (exists outreq,
      Director proxy req st = (outreq, st') /\
      Value (reqCtx outreq) tokenErrorKey = Some (ErrorVal err) /\
      Header outreq = Header (baseDirector url req)) /\
  (forall B (H : RoundTripper (E := E) B) (b : B) p r s e,
      Value (reqCtx r) tokenErrorKey = Some (ErrorVal e) ->
      RoundTrip {| errBase := b |} r s = (Err e, s) /\
      RoundTrip {| retryBase := {| errBase := b |}; retryProvider := p |} r s
      = (Err e, s)) /\
  ServeHTTP proxy req st = (badGateway, st') /\
  dispatches (trace st') = dispatches (trace st).
Proof.
  intros Hnew Hfail.
  destruct (newReverseProxy_hooks _ _ _ _ _ Hnew) as (Hdir & Htr & Hhandler).
  assert (Hout : Director proxy req st =
                 (Clone (baseDirector url req)
                    (WithValue (reqCtx (baseDirector url req)) tokenErrorKey
                       (ErrorVal err)), st')).
  { rewrite Hdir. unfold tokenDirector, bind. now rewrite Hfail. }
  split; [|split; [|split]].
  - eexists. split; [exact Hout|]. split; reflexivity.
  - intros B H b p r s e Hctx.
    pose proof (tokenErrorTransport_blocks b r s e Hctx) as Hblock.
    split; [exact Hblock|]. now apply retry_failure.
  - unfold ServeHTTP, bind. rewrite Hout, Htr.
    rewrite (retry_failure proxyTransport _ _ err st').
    + now rewrite Hhandler.
    + now apply tokenErrorTransport_blocks.
  - pose proof (ensureToken_grows (reqCtx (baseDirector url req)) theProvider st)
      as Hg. rewrite Hfail in Hg. now apply grows_dispatches in Hg.
Qed.

End ErrorPropagation.

(** ** The remote credential fetcher *)

Section Fetcher.

Context {E : Type} {W : World E}.

(** What fetchTokenFromURL answers once the token endpoint has replied:
    the non-200 failure for any other status; for 200 and a payload that
    decodes, the empty-token failure for a blank access_token, a zero
    lifetime for an expires_in that is not positive, and expires_in
    seconds as long as that many nanoseconds fit an int64. *)
Lemma fetchTokenFromURL_answers ctx url (w w' : E) resp :
  http_NewRequest url = None ->
  client_Get ctx url w = (Ok resp, w') ->
  (StatusCode resp <> StatusOK ->
   fetchTokenFromURL ctx url w = (Err errRefreshNon200, w')) /\
  (forall tok n,
      StatusCode resp = StatusOK ->
      json_Decode (RespBody resp) = Ok (tok, n) ->
      (blank tok = true ->
       fetchTokenFromURL ctx url w = (Err errRefreshEmptyToken, w')) /\
      (blank tok = false -> n <= 0 ->
       fetchTokenFromURL ctx url w = (Ok (tok, 0), w')) /\
      (blank tok = false -> 0 < n <= 9223372036 ->
       fetchTokenFromURL ctx url w = (Ok (tok, n * Second), w'))).
Proof.
  intros Hreq Hget. unfold fetchTokenFromURL. rewrite Hreq, Hget. split.
  - intros Hstatus. apply Z.eqb_neq in Hstatus. now rewrite Hstatus.
  - intros tok n Hstatus Hdecode. apply Z.eqb_eq in Hstatus.
    rewrite Hstatus, Hdecode. cbn [negb]. repeat split.
    + now intros ->.
    + intros -> Hn. apply Z.leb_le in Hn. now rewrite Hn.
    + intros -> Hn. destruct (Z.leb_spec n 0); [lia|].
      rewrite wrap64_small; [reflexivity|]. unfold int64_range, Second. lia.
Qed.

End Fetcher.

(** ** Runs in the scripted world *)

(** C8, the claim as it was stated fails: a lifetime of one second lies
    strictly between 0 and 2 seconds and a tenth of it is below 30
    seconds, yet the buffer is the tenth, 100 ms, not the half. *)
Lemma expiryBuffer_one_second_is_a_tenth :
  0 < Second < 2 * Second /\
  Second ÷ 10 < 30 * Second /\
  expiryBuffer Second = Second ÷ 10 /\
  expiryBuffer Second <> Second ÷ 2.
Proof. repeat split; discriminate. Qed.

Lemma expiryBuffer_below_two_seconds_witness :
  0 < 1500000000 < 2 * Second /\ expiryBuffer 1500000000 = 150000000.
Proof.
  assert (Hrange : 0 < 1500000000 < 2 * Second) by (unfold Second; lia).
  split; [exact Hrange|].
  exact (expiryBuffer_below_two_seconds 1500000000 Hrange).
Defined.

(** C7, the claim as it was stated fails: a provider without refresh
    function and without cached token fails ensure with the error
    "token is empty", which is EmptyCredential and not NotConfigured. *)
Lemma ensureToken_unset_is_not_NotConfigured :
  refresh (provider (simStart 0 [] [])) = None /\
  token (provider (simStart 0 [] [])) = "" /\
  ensureToken [] theProvider (simStart 0 [] [])
  = (Err errTokenEmpty, simStart 0 [] []) /\
  classify errTokenEmpty <> NotConfigured.
Proof. repeat split; discriminate. Qed.

Lemma ensureToken_no_source_witness :
  refresh (provider (simStart 0 [] [])) = None /\
  blank (token (provider (simStart 0 [] []))) = true /\
  ensureToken [] theProvider (simStart 0 [] [])
  = (Err errTokenEmpty, simStart 0 [] []).
Proof.
  split; [reflexivity|]. split; [reflexivity|].
  exact (proj1 (ensureToken_no_source [] (simStart 0 [] [])) eq_refl eq_refl).
Defined.





Lemma ensureToken_cache_hit_witness :
  let st := simServing 1000 [] [] "tok" 5000 in
  let steps := [simAt 2000; simAt 5000] in
  fresh (provider st) (world st) /\
  freshAlong (provider st) steps (world st) /\
  ensureToken [] theProvider st = (Ok "tok", st) /\
  refreshCalls (trace (snd (ensureEach [] steps st))) = 0%nat.
Proof.
  intros st steps.
  assert (Hnow : fresh (provider st) (world st))
    by (split; [reflexivity | right; cbn; lia]).
  assert (Hsteps : freshAlong (provider st) steps (world st)).
  { cbn. repeat split; try (right; cbn; lia). }
  split; [exact Hnow|]. split; [exact Hsteps|].
  pose proof (ensureToken_cache_hit [] st steps Hnow Hsteps) as (Hhit & _ & Hcount & _).
  split; [exact Hhit | exact Hcount].
Defined.

Lemma proxyTransport_sendsOnce {E} {W : World E} :
  sendsOnce (E := E) (retryBase proxyTransport).
Proof.
  apply (tokenErrorTransport_sendsOnce DefaultTransport), httpTransport_sendsOnce.
Qed.

Lemma retry_at_most_once_witness :
  let st := simServing 1000 [401; 401] [Ok (" new ", 0)] "old" 0 in
  let rejected := {| StatusCode := 401; RespBody := NoBody |} in
  let st1 := {| world := {| simNow := 1000; simBackend := [401];
                            simRefresh := [Ok (" new ", 0)];
                            simEndpoint := 200 |};
                provider := provider st;
                trace := [Dispatched replayableUpload] |} in
  let st3 := {| world := {| simNow := 1000; simBackend := [401];
                            simRefresh := []; simEndpoint := 200 |};
                provider := {| token := "new"; refreshAt := zeroTime;
                               fetch := None;
                               refresh := Some scriptedRefresh |};
                trace := [Dispatched replayableUpload; RefreshCalled;
                          BodyClosed; GetBodyCalled] |} in
  let again := replayOf replayableUpload (reader "payload") "new" in
  sendsOnce (E := Sim) (retryBase proxyTransport) /\
  RoundTrip (retryBase proxyTransport) replayableUpload st = (Ok rejected, st1) /\
  ~ marked replayableUpload /\
  RoundTrip proxyTransport replayableUpload st
  = RoundTrip (retryBase proxyTransport) again st3 /\
  fst (RoundTrip proxyTransport replayableUpload st) = Ok rejected /\
  dispatches (trace (snd (RoundTrip proxyTransport replayableUpload st))) = 2%nat /\
  refreshCalls (trace (snd (RoundTrip proxyTransport replayableUpload st))) = 1%nat.
Proof.
  intros st rejected st1 st3 again.
  assert (Hunmarked : ~ marked replayableUpload)
    by (intros Hmarked; apply Hmarked; reflexivity).
  split; [exact proxyTransport_sendsOnce|]. split; [reflexivity|].
  split; [exact Hunmarked|].
  split; [|split; [reflexivity | split; reflexivity]].
  exact (proj2 (proj2 (proj2 (retry_at_most_once proxyTransport replayableUpload
                                st proxyTransport_sendsOnce))
                  rejected st1 scriptedRefresh eq_refl eq_refl Hunmarked
                  eq_refl eq_refl eq_refl)).
Defined.

Lemma unreplayable_body_not_retried_witness :
  let st := simServing 1000 [401] [Ok ("new", 0)] "old" 0 in
  let rejected := {| StatusCode := 401; RespBody := NoBody |} in
  let st1 := {| world := {| simNow := 1000; simBackend := [];
                            simRefresh := [Ok ("new", 0)]; simEndpoint := 200 |};
                provider := provider st;
                trace := [Dispatched uploadRequest] |} in
  Body uploadRequest = reader "payload" /\
  GetBody uploadRequest = None /\
  RoundTrip (retryBase proxyTransport) uploadRequest st = (Ok rejected, st1) /\
  StatusCode rejected = StatusUnauthorized /\
  RoundTrip proxyTransport uploadRequest st = (Ok rejected, st1).
Proof.
  intros st rejected st1.
  split; [reflexivity|]. split; [reflexivity|]. split; [reflexivity|].
  split; [reflexivity|].
  exact (proj1 (unreplayable_body_not_retried proxyTransport uploadRequest st
                  rejected st1 "payload" eq_refl eq_refl eq_refl eq_refl)).
Defined.

Lemma retry_only_on_unauthorized_witness :
  let st := simServing 1000 [403] [Ok ("new", 0)] "old" 0 in
  let forbidden := {| StatusCode := 403; RespBody := NoBody |} in
  let st1 := {| world := {| simNow := 1000; simBackend := [];
                            simRefresh := [Ok ("new", 0)]; simEndpoint := 200 |};
                provider := provider st;
                trace := [Dispatched plainRequest] |} in
  RoundTrip (retryBase proxyTransport) plainRequest st = (Ok forbidden, st1) /\
  StatusCode forbidden <> StatusUnauthorized /\
  RoundTrip proxyTransport plainRequest st = (Ok forbidden, st1).
Proof.
  intros st forbidden st1.
  assert (Hstatus : StatusCode forbidden <> StatusUnauthorized) by discriminate.
  split; [reflexivity|]. split; [exact Hstatus|].
  exact (proj1 (retry_only_on_unauthorized proxyTransport plainRequest st
                  forbidden st1 eq_refl Hstatus)).
Defined.

Lemma augmentation_error_stops_request_witness :
  let st := simFetched "" "" in
  newReverseProxy "http://backend"
    [WithTokenFetcherFunc (Some (constantFetch ""))] (simStart 1000 [] [])
  = (Ok simProxy, st) /\
  ensureToken (reqCtx (baseDirector "http://backend" plainRequest)) theProvider st
  = (Err errTokenEmpty, st) /\
  ServeHTTP simProxy plainRequest st = (badGateway, st) /\
  dispatches (trace st) = 0%nat.
Proof.
  intros st.
  assert (Hnew : newReverseProxy "http://backend"
                   [WithTokenFetcherFunc (Some (constantFetch ""))]
                   (simStart 1000 [] []) = (Ok simProxy, st))
    by reflexivity.
  split; [exact Hnew|]. split; [reflexivity|].
  pose proof (augmentation_error_stops_request "http://backend"
                [WithTokenFetcherFunc (Some (constantFetch ""))]
                (simStart 1000 [] []) st simProxy plainRequest st st
                errTokenEmpty Hnew eq_refl) as (_ & _ & Hserve & _).
  split; [exact Hserve | reflexivity].
Defined.

(** C9: an expires_in of 9223372037 seconds does not fit an int64 count of
    nanoseconds: the product with time.Second wraps around and the fetcher
    answers a negative lifetime instead of that many seconds. *)
Theorem fetchTokenFromURL_expires_in_overflows :
  let w := world (simStart 0 [] []) in
  int64_range 9223372037 /\
  fetchTokenFromURL (W := simWorld (Ok ("t", 9223372037))) [] "http://token" w
  = (Ok ("t", -9223372036709551616), w) /\
  -9223372036709551616 <> 9223372037 * Second.
Proof.
  intros w. split; [unfold int64_range; lia|]. split; [reflexivity | discriminate].
Qed.

(** * Further properties of the provider *)

(** Case analysis on the comparisons of a goal about durations. *)
Ltac compare_cases :=
  repeat match goal with
  | |- context [?a <? ?b] => destruct (Z.ltb_spec a b)
  | |- context [?a <=? ?b] => destruct (Z.leb_spec a b)
  end; cbn [andb orb negb] in *; try reflexivity;
  try (Z.div_mod_to_equations; lia).

Section ProviderFurther.

Context {E : Type} {W : World E}.

Implicit Types (st : State E) (ctx : Ctx).

Lemma setWithExpiry_run tok ttl st :
  setWithExpiry tok ttl st =
    (tt, {| world := world st;
            provider := {| token := tok;
                           refreshAt := deadlineAt (clock (world st)) ttl;
                           fetch := fetch (provider st);
                           refresh := refresh (provider st) |};
            trace := trace st |}).
Proof.
  unfold setWithExpiry, deadlineAt. run.
  destruct (Z.ltb_spec 0 ttl) as [Hpos|]; [|reflexivity]. cbn.
  pose proof (expiryBuffer_bounds ttl Hpos) as Hb.
  rewrite wrap64_small by (unfold int64_range, Second in *; lia).
  reflexivity.
Qed.

Lemma expiryBuffer_below ttl : 0 < ttl -> expiryBuffer ttl < ttl.
Proof.
  intros Hpos. rewrite expiryBuffer_closed by exact Hpos.
  rewrite !Z.quot_div_nonneg by lia. unfold Second. compare_cases.
Qed.

(** What forceRefresh does with a usable answer of the refresh function. *)
Lemma forceRefresh_run ctx st f raw ttl w' :
  refresh (provider st) = Some f ->
  f ctx (world st) = (Ok (raw, ttl), w') ->
  blank raw = false ->
  forceRefresh ctx theProvider st =
    (Ok (TrimSpace raw),
     {| world := w';
        provider := {| token := TrimSpace raw;
                       refreshAt := deadlineAt (clock w') ttl;
                       fetch := fetch (provider st);
                       refresh := refresh (provider st) |};
        trace := trace st ++ [RefreshCalled] |}).
Proof.
  intros Hf Hcall Hraw. unfold forceRefresh. run.
  rewrite Hf. cbn [fst snd world provider trace]. rewrite Hcall.
  unfold blank in Hraw. rewrite Hraw. rewrite setWithExpiry_run.
  cbn [fst snd world provider trace]. now rewrite Hf.
Qed.

(** What ensure does with a usable answer, when it has to refresh. *)
Lemma ensureToken_run ctx st f raw ttl w' :
  refresh (provider st) = Some f ->
  due (provider st) (world st) = true ->
  f ctx (world st) = (Ok (raw, ttl), w') ->
  blank raw = false ->
  ensureToken ctx theProvider st =
    (Ok (TrimSpace raw),
     {| world := w';
        provider := {| token := TrimSpace raw;
                       refreshAt := deadlineAt (clock w') ttl;
                       fetch := fetch (provider st);
                       refresh := refresh (provider st) |};
        trace := trace st ++ [RefreshCalled] |}).
Proof.
  intros Hf Hdue Hcall Hraw. unfold ensureToken. run.
  rewrite Hf. unfold due in Hdue. rewrite Hdue.
  cbn [fst snd world provider trace]. rewrite Hcall.
  unfold blank in Hraw. rewrite Hraw. rewrite setWithExpiry_run.
  cbn [fst snd world provider trace]. now rewrite Hf.
Qed.

(** A failed call of the refresh function fails forceRefresh with the
    error of the call. *)
Lemma forceRefresh_fails ctx st f err w' :
  refresh (provider st) = Some f ->
  f ctx (world st) = (Err err, w') ->
  forceRefresh ctx theProvider st =
    (Err err, {| world := w'; provider := provider st;
                 trace := trace st ++ [RefreshCalled] |}).
Proof.
  intros Hf Hcall. unfold forceRefresh. run. rewrite Hf. cbn. now rewrite Hcall.
Qed.

(** A deadline computed at [now] is not before [now]. *)
Lemma deadlineAt_fresh now ttl :
  deadlineAt now ttl = zeroTime \/ ~ (deadlineAt now ttl < now).
Proof.
  unfold deadlineAt. destruct (Z.ltb_spec 0 ttl) as [Hpos|]; [|now left].
  right. pose proof (expiryBuffer_below ttl Hpos). lia.
Qed.

(** X1: a failure of the refresh function is the failure of the call, for
    forceRefresh and for ensure when it has to refresh, and the cache keeps
    the token and the deadline it had. *)
Theorem refresh_failure_keeps_cache ctx st f err w' :
  refresh (provider st) = Some f ->
  f ctx (world st) = (Err err, w') ->
  forceRefresh ctx theProvider st =
    (Err err, {| world := w'; provider := provider st;
                 trace := trace st ++ [RefreshCalled] |}) /\
  (due (provider st) (world st) = true ->
   ensureToken ctx theProvider st =
     (Err err, {| world := w'; provider := provider st;
                  trace := trace st ++ [RefreshCalled] |})).
Proof.
  intros Hf Hcall. split; [now apply (forceRefresh_fails ctx st f)|].
  intros Hdue. unfold ensureToken. run. rewrite Hf.
  unfold due in Hdue. rewrite Hdue. cbn. now rewrite Hcall.
Qed.

(** X2: with a refresh function configured, ensure calls it exactly when
    the cached token is blank or a deadline is set and the clock is
    strictly past it; at the deadline itself the cache is still used. *)
Theorem ensureToken_refreshes_iff_due ctx st f :
  refresh (provider st) = Some f ->
  trace (snd (ensureToken ctx theProvider st))
  = trace st ++ (if due (provider st) (world st) then [RefreshCalled] else []) /\
  (blank (token (provider st)) = false ->
   clock (world st) = refreshAt (provider st) ->
   ensureToken ctx theProvider st = (Ok (token (provider st)), st)).
Proof.
  intros Hf. split.
  - unfold ensureToken, due. run. rewrite Hf.
    destruct (blank (token (provider st)) || _); [|cbn; now rewrite app_nil_r].
    destruct (f ctx (world st)) as [[[raw ttl]|err] w'];
      cbn [fst snd world provider trace]; [|reflexivity].
    destruct (TrimSpace raw =? "")%string;
      cbn [fst snd world provider trace]; [reflexivity|].
    now rewrite setWithExpiry_run.
  - intros Hblank Hclock. apply ensureToken_hit. split; [exact Hblank|].
    right. lia.
Qed.

(** X3: for a positive lifetime the deadline that setWithExpiry installs
    lies strictly after the instant of the call and not after the expiry,
    at most 30 seconds before it; the token is stored and the functions of
    the provider are kept. *)
Theorem setWithExpiry_deadline_window tok ttl st :
  0 < ttl ->
  let p := provider (snd (setWithExpiry tok ttl st)) in
  clock (world st) < refreshAt p <= clock (world st) + ttl /\
  clock (world st) + ttl - refreshAt p <= 30 * Second /\
  token p = tok /\ refresh p = refresh (provider st) /\ fetch p = fetch (provider st).
Proof.
  intros Hpos. rewrite setWithExpiry_run.
  cbn [fst snd world provider trace token refreshAt fetch refresh].
  unfold deadlineAt. destruct (Z.ltb_spec 0 ttl); [|lia].
  pose proof (expiryBuffer_below ttl Hpos).
  pose proof (expiryBuffer_bounds ttl Hpos).
  repeat split; try reflexivity; lia.
Qed.

(** X4: forceRefresh refreshes whatever the cache holds: a usable answer
    is trimmed, returned and installed with the deadline of its lifetime,
    counted from the clock after the call; so is it by ensure when it has
    to refresh. *)
Theorem refresh_answer_is_installed ctx st f raw ttl w' :
  refresh (provider st) = Some f ->
  f ctx (world st) = (Ok (raw, ttl), w') ->
  blank raw = false ->
  let installed :=
    {| world := w';
       provider := {| token := TrimSpace raw;
                      refreshAt := deadlineAt (clock w') ttl;
                      fetch := fetch (provider st);
                      refresh := refresh (provider st) |};
       trace := trace st ++ [RefreshCalled] |} in
  forceRefresh ctx theProvider st = (Ok (TrimSpace raw), installed) /\
  (due (provider st) (world st) = true ->
   ensureToken ctx theProvider st = (Ok (TrimSpace raw), installed)).
Proof.
  intros Hf Hcall Hraw installed. split.
  - now apply (forceRefresh_run ctx st f).
  - intros Hdue. now apply (ensureToken_run ctx st f).
Qed.

(** X5: ensure is idempotent while the world stands still: after a
    successful ensure, one more ensure returns the same token and changes
    nothing, the refresh function not being called. *)
Theorem ensureToken_twice ctx ctx' st st' tok :
  ensureToken ctx theProvider st = (Ok tok, st') ->
  ensureToken ctx' theProvider st' = (Ok tok, st').
Proof.
  unfold ensureToken at 1. run.
  destruct (refresh (provider st)) as [f|] eqn:Hf.
  - destruct (blank (token (provider st)) || _) eqn:Hdue.
    + destruct (f ctx (world st)) as [[[raw ttl]|err] w'];
        cbn [fst snd world provider trace]; [|discriminate].
      destruct (String.eqb_spec (TrimSpace raw) "") as [|Hraw]; [discriminate|].
      rewrite setWithExpiry_run. cbn [fst snd world provider trace token].
      intros [= <- <-].
      apply (ensureToken_hit ctx'). split; cbn.
      * apply nonempty_trimmed_not_blank; auto using TrimSpace_idempotent.
      * apply deadlineAt_fresh.
    + intros [= <- <-]. unfold ensureToken. run. now rewrite Hf, Hdue.
  - destruct (blank (token (provider st))) eqn:Hblank; [discriminate|].
    intros [= <- <-]. unfold ensureToken. run. now rewrite Hf, Hblank.
Qed.

(** Without a deadline a cached token is used whatever the clock shows. *)
Lemma sentinel_never_refreshes ctx st steps :
  blank (token (provider st)) = false ->
  refreshAt (provider st) = zeroTime ->
  provider (snd (ensureEach ctx steps st)) = provider st /\
  trace (snd (ensureEach ctx steps st)) = trace st.
Proof.
  intros Htok Hzero. apply ensureEach_fresh.
  generalize (world st). induction steps as [|g rest IH]; intros w; cbn; auto.
  split; [|apply IH]. split; [exact Htok | left; exact Hzero].
Qed.

(** X6: a token installed with a lifetime that is not positive is never
    refreshed because of the time that passes: whatever the clock shows at
    the later calls of ensure, the provider stays as it is and the refresh
    function is not called. *)
Theorem nonpositive_lifetime_never_expires ctx st f raw ttl w' steps :
  refresh (provider st) = Some f ->
  f ctx (world st) = (Ok (raw, ttl), w') ->
  blank raw = false ->
  ttl <= 0 ->
  let st' := snd (forceRefresh ctx theProvider st) in
  refreshAt (provider st') = zeroTime /\
  provider (snd (ensureEach ctx steps st')) = provider st' /\
  refreshCalls (trace (snd (ensureEach ctx steps st'))) = refreshCalls (trace st').
Proof.
  intros Hf Hcall Hraw Httl.
  rewrite (forceRefresh_run ctx st f raw ttl w' Hf Hcall Hraw). cbn [snd].
  set (st' := {| world := w'; provider := _; trace := _ |}).
  assert (Hzero : refreshAt (provider st') = zeroTime).
  { cbn. unfold deadlineAt. destruct (Z.ltb_spec 0 ttl); [lia | reflexivity]. }
  assert (Htok : blank (token (provider st')) = false).
  { cbn. apply nonempty_trimmed_not_blank; [apply TrimSpace_idempotent|].
    now apply blank_false. }
  destruct (sentinel_never_refreshes ctx st' steps Htok Hzero) as [Hp Ht].
  split; [exact Hzero|]. split; [exact Hp | now rewrite Ht].
Qed.

(** X7: the functions of the provider are never replaced: ensure and
    forceRefresh change at most the token and the deadline. *)
Theorem provider_functions_kept ctx p st :
  refresh (provider (snd (ensureToken ctx p st))) = refresh (provider st) /\
  fetch (provider (snd (ensureToken ctx p st))) = fetch (provider st) /\
  refresh (provider (snd (forceRefresh ctx p st))) = refresh (provider st) /\
  fetch (provider (snd (forceRefresh ctx p st))) = fetch (provider st).
Proof.
  unfold ensureToken, forceRefresh, setWithExpiry. destruct p; run;
    [repeat split|].
  repeat split;
    repeat (break_match; cbn [fst snd world provider trace refresh fetch]);
    congruence.
Qed.

End ProviderFurther.

(** * Further properties of the construction *)

Section ConstructionFurther.

Context {E : Type} {W : World E}.

Implicit Types (st : State E) (ctx : Ctx) (cfg : proxyConfig (E := E)).

Lemma inertOptions_nothing opts cfg :
  Forall inertOption opts -> fold_left (fun c opt => opt c) opts cfg = cfg.
Proof.
  intros Hall. revert cfg. induction Hall as [|opt rest Hopt _ IH]; intros cfg.
  - reflexivity.
  - cbn [fold_left]. rewrite IH.
    destruct Hopt as [-> | [-> | (u & Hu & ->)]]; [reflexivity..|].
    unfold WithTokenRefreshURL. now rewrite Hu.
Qed.

Lemma sourceOptions_deadline opts cfg :
  Forall sourceOption opts ->
  refreshAt (cfgProvider (fold_left (fun c opt => opt c) opts cfg))
  = refreshAt (cfgProvider cfg).
Proof.
  intros Hall. revert cfg. induction Hall as [|opt rest Hopt _ IH]; intros cfg.
  - reflexivity.
  - cbn [fold_left]. rewrite IH.
    destruct Hopt as [[f ->] | [[f ->] | [u ->]]].
    + unfold WithTokenFetcherFunc. now destruct f.
    + unfold WithTokenRefreshFunc. now destruct f.
    + unfold WithTokenRefreshURL. now destruct (blank u).
Qed.

(** X8: newReverseProxy refuses a blank backend URL, a backend URL that
    does not parse (with the error of the parser) and a list of options
    that configures neither an initial fetch nor a refresh function; in
    each case nothing is called and the state stays as it is. *)
Theorem newReverseProxy_rejects url opts st :
  (blank url = true ->
   newReverseProxy url opts st
   = (Err (errors_New "backend URL is required"), st)) /\
  (forall err, blank url = false -> url_Parse url = Some err ->
   newReverseProxy url opts st = (Err err, st)) /\
  (blank url = false -> url_Parse url = None -> Forall inertOption opts ->
   newReverseProxy url opts st
   = (Err (errors_New "token fetcher or refresh must be configured"), st)).
Proof.
  unfold newReverseProxy. split; [|split].
  - now intros ->.
  - intros err -> Hparse. now rewrite Hparse.
  - intros -> Hparse Hinert. rewrite Hparse.
    now rewrite (inertOptions_nothing opts _ Hinert).
Qed.

(** X9: a proxy that newReverseProxy builds from the options of the
    package starts without a deadline and with an initial fetch or a
    refresh function; the initial fetch is called once when there is one,
    its trimmed answer being the cached token, the refresh function and
    the backend are not called. *)
Theorem newReverseProxy_start url opts st proxy st' :
  Forall sourceOption opts ->
  newReverseProxy url opts st = (Ok proxy, st') ->
  refreshAt (provider st') = zeroTime /\
  (fetch (provider st') <> None \/ refresh (provider st') <> None) /\
  match fetch (provider st') with
  | Some f =>
      trace st' = trace st ++ [FetchCalled] /\
      world st' = snd (f (world st)) /\
      token (provider st') = TrimSpace (fst (f (world st)))
  | None =>
      trace st' = trace st /\ world st' = world st /\ token (provider st') = ""
  end.
Proof.
  intros Hopts. unfold newReverseProxy.
  destruct (blank url); [discriminate|].
  destruct (url_Parse url); [discriminate|].
  pose proof (sourceOptions_token opts {| cfgProvider := emptyProvider |} Hopts)
    as Htok.
  pose proof (sourceOptions_deadline opts {| cfgProvider := emptyProvider |} Hopts)
    as Hat.
  cbn in Htok, Hat.
  set (cfg := fold_left (fun c opt => opt c) opts {| cfgProvider := emptyProvider |})
    in *.
  destruct (fetch (cfgProvider cfg)) as [f|] eqn:Hf.
  - run. destruct (f (world st)) as [s w'] eqn:Hcall.
    cbn [fst snd world provider trace].
    destruct (String.eqb_spec (TrimSpace s) "") as [Hs|Hs];
      cbn [fst snd world provider trace];
      intros [= _ <-]; cbn [world provider trace refreshAt fetch refresh token];
      rewrite ?Hf, ?Hcall; cbn [fst snd].
    + repeat split; auto; [left; discriminate | now rewrite Htok, Hs].
    + repeat split; auto. left; discriminate.
  - destruct (refresh (cfgProvider cfg)) eqn:Hr; [|discriminate].
    run. intros [= _ <-]. cbn [world provider trace]. rewrite Hf.
    repeat split; auto. right. rewrite Hr. discriminate.
Qed.

(** X10: the refresh function that WithTokenRefreshFunc installs reports
    no lifetime: a token obtained through it gets no deadline, and no
    later call of ensure, whatever the clock shows, calls the function
    again. *)
Theorem public_refresh_never_expires cfg g ctx st raw w' steps :
  refresh (provider st)
  = refresh (cfgProvider (WithTokenRefreshFunc (Some g) cfg)) ->
  g ctx (world st) = (Ok raw, w') ->
  blank raw = false ->
  let st' := snd (forceRefresh ctx theProvider st) in
  fst (forceRefresh ctx theProvider st) = Ok (TrimSpace raw) /\
  token (provider st') = TrimSpace raw /\
  refreshAt (provider st') = zeroTime /\
  refreshCalls (trace (snd (ensureEach ctx steps st'))) = refreshCalls (trace st').
Proof.
  intros Hf Hcall Hraw. cbn in Hf.
  rewrite (forceRefresh_run ctx st _ raw 0 w' Hf); [|now rewrite Hcall | exact Hraw].
  cbn [fst snd].
  set (st' := {| world := w'; provider := _; trace := _ |}).
  assert (Htok : blank (token (provider st')) = false).
  { cbn. apply nonempty_trimmed_not_blank; [apply TrimSpace_idempotent|].
    now apply blank_false. }
  destruct (sentinel_never_refreshes ctx st' steps Htok eq_refl) as [_ Ht].
  repeat split. now rewrite Ht.
Qed.

(** X11: without a token URL, neither from the flag nor from the
    environment, the program does not start: main passes no option, and
    newReverseProxy fails whatever the backend URL is. *)
Theorem main_needs_token_url backendFlag tokenURLFlag Getenv st :
  blank tokenURLFlag = true ->
  blank (Getenv "TOKEN_URL") = true ->
  exists err, main backendFlag tokenURLFlag Getenv st = (Err err, st).
Proof.
  intros Hflag Henv. unfold main. rewrite Hflag, Henv. cbn [negb].
  set (backendURL := if blank backendFlag then _ else _).
  unfold newReverseProxy.
  destruct (blank backendURL); [eexists; reflexivity|].
  destruct (url_Parse backendURL) as [err|]; eexists; reflexivity.
Qed.

(** X12: a flag that is not blank wins over the environment, which is
    read for a blank flag; when main succeeds the provider holds no token,
    no deadline and no initial fetch, and refreshes from the token URL:
    nothing was called, and the first ensure calls the token endpoint. *)
Theorem main_start backendFlag tokenURLFlag Getenv st proxy st' :
  main backendFlag tokenURLFlag Getenv st = (Ok proxy, st') ->
  let backendURL :=
    if blank backendFlag then Getenv "BACKEND_URL" else backendFlag in
  let tokenURL :=
    if blank tokenURLFlag then Getenv "TOKEN_URL" else tokenURLFlag in
  blank backendURL = false /\ blank tokenURL = false /\
  Director proxy = tokenDirector backendURL theProvider /\
  st' = {| world := world st;
           provider := {| token := ""; refreshAt := zeroTime; fetch := None;
                          refresh := Some (fun ctx => fetchTokenFromURL ctx tokenURL) |};
           trace := trace st |} /\
  forall w, due (provider st') w = true.
Proof.
  intros Hrun backendURL tokenURL. unfold main in Hrun. cbv zeta in Hrun.
  change (if blank backendFlag then Getenv "BACKEND_URL" else backendFlag)
    with backendURL in Hrun.
  change (if blank tokenURLFlag then Getenv "TOKEN_URL" else tokenURLFlag)
    with tokenURL in Hrun.
  destruct (blank tokenURL) eqn:Htoken; cbn [negb app] in Hrun.
  - exfalso. revert Hrun. unfold newReverseProxy.
    destruct (blank backendURL); [discriminate|].
    destruct (url_Parse backendURL); discriminate.
  - revert Hrun. unfold newReverseProxy.
    destruct (blank backendURL); [discriminate|].
    destruct (url_Parse backendURL); [discriminate|].
    cbn [fold_left]. unfold WithTokenRefreshURL. rewrite Htoken.
    cbn. run. intros [= <- <-]. repeat split.
Qed.

End ConstructionFurther.

(** * Further properties of the transports *)

Section TransportFurther.

Context {E : Type} {W : World E}.

Implicit Types (req : Request E) (st : State E) (ctx : Ctx).

Lemma Header_Get_Set k v h : Header_Get k (Header_Set k v h) = v.
Proof. unfold Header_Set. cbn. now rewrite String.eqb_refl. Qed.

(** A request without augmentation error goes to the backend. *)
Lemma inner_dispatch req st :
  carriesError req = false ->
  RoundTrip (retryBase proxyTransport) req st =
    (fst (backend req (world st)),
     {| world := snd (backend req (world st)); provider := provider st;
        trace := trace st ++ [Dispatched req] |}).
Proof.
  intros Hclean. cbn [retryBase proxyTransport].
  unfold RoundTrip at 1, tokenErrorTransport_RoundTripper.
  unfold carriesError in Hclean.
  assert (Hgo : RoundTrip DefaultTransport req st =
                (fst (backend req (world st)),
                 {| world := snd (backend req (world st)); provider := provider st;
                    trace := trace st ++ [Dispatched req] |})).
  { unfold RoundTrip, httpTransport_RoundTripper. run.
    now destruct (backend req (world st)). }
  destruct (Value (reqCtx req) tokenErrorKey) as [[err|flag]|];
    [discriminate | exact Hgo | exact Hgo].
Qed.

Lemma replayOf_clean req b tok :
  carriesError (replayOf req b tok) = carriesError req.
Proof. reflexivity. Qed.

(** X13: on a cache hit the director leaves the state as it is and hands
    on the request of the base director with the header Authorization
    replaced by Bearer and the cached token, the context, the path and the
    body kept; and the transport of the proxy, given any request without
    augmentation error, sends exactly that request to the backend once and
    returns an answer other than 401 as it is, the provider being
    untouched and the refresh function not called. *)
Theorem director_sets_bearer_and_transport_forwards
  url opts (st0 st1 : State E) proxy req st :
  newReverseProxy url opts st0 = (Ok proxy, st1) ->
  fresh (provider st) (world st) ->
  let out := setBearer (baseDirector url req) (token (provider st)) in
  Director proxy req st = (out, st) /\
  Header_Get "Authorization" (Header out)
  = String.append "Bearer " (token (provider st)) /\
  reqCtx out = reqCtx (baseDirector url req) /\
  URLPath out = URLPath (baseDirector url req) /\
  Body out = Body (baseDirector url req) /\
  (forall sent resp w',
      carriesError sent = false ->
      backend sent (world st) = (Ok resp, w') ->
      StatusCode resp <> StatusUnauthorized ->
      RoundTrip (Transport proxy) sent st =
        (Ok resp, {| world := w'; provider := provider st;
                     trace := trace st ++ [Dispatched sent] |})).
Proof.
  intros Hnew Hfresh out.
  destruct (newReverseProxy_hooks _ _ _ _ _ Hnew) as (Hdir & Htr & _).
  split; [|split; [apply Header_Get_Set | repeat (split; [reflexivity|])]].
  - rewrite Hdir. unfold tokenDirector, bind.
    now rewrite (ensureToken_hit _ st Hfresh).
  - intros sent resp w' Hclean Hback Hstatus. rewrite Htr.
    assert (Hinner : RoundTrip (retryBase proxyTransport) sent st =
                     (Ok resp, {| world := w'; provider := provider st;
                                  trace := trace st ++ [Dispatched sent] |})).
    { rewrite inner_dispatch by exact Hclean. now rewrite Hback. }
    apply (retry_declined proxyTransport sent st resp _ Hinner). auto.
Qed.

(** X14: the replay. A request that may be replayed and is answered with
    401 makes the retry transport call the refresh function once, close
    the body of the rejected response, produce the body again and send
    the request once more, marked as a retry and with the new token as
    bearer; the answer to that request is the answer of the call, and the
    new token is cached with its deadline. *)
Theorem unauthorized_request_is_replayed
  req st f resp w1 raw ttl w2 b w3 evs r w4 :
  carriesError req = false ->
  Value (reqCtx req) tokenRetryKey = None ->
  notReplayable req = false ->
  refresh (provider st) = Some f ->
  backend req (world st) = (Ok resp, w1) ->
  StatusCode resp = StatusUnauthorized ->
  f (reqCtx req) w1 = (Ok (raw, ttl), w2) ->
  blank raw = false ->
  regenerate req w2 = (Ok b, w3, evs) ->
  let again := replayOf req b (TrimSpace raw) in
  backend again w3 = (r, w4) ->
  RoundTrip proxyTransport req st =
    (r, {| world := w4;
           provider := {| token := TrimSpace raw;
                          refreshAt := deadlineAt (clock w2) ttl;
                          fetch := fetch (provider st);
                          refresh := refresh (provider st) |};
           trace := trace st ++ [Dispatched req; RefreshCalled]
                    ++ closing resp ++ evs ++ [Dispatched again] |}) /\
  Value (reqCtx again) tokenRetryKey = Some (BoolVal true) /\
  Header_Get "Authorization" (Header again)
  = String.append "Bearer " (TrimSpace raw) /\
  URLPath again = URLPath req /\ Body again = b.
Proof.
  intros Hclean Hmark Hbody Hf Hback H401 Hcall Hraw Hregen again Hagain.
  split; [|split; [reflexivity | split; [apply Header_Get_Set | split; reflexivity]]].
  pose proof (inner_dispatch req st Hclean) as Hfirst. rewrite Hback in Hfirst.
  cbn [fst snd] in Hfirst.
  set (st1 := {| world := w1; provider := provider st;
                 trace := trace st ++ [Dispatched req] |}) in *.
  rewrite (retry_continues proxyTransport req st resp st1 f Hfirst H401 Hmark
             eq_refl Hf Hbody).
  unfold bind at 1.
  rewrite (forceRefresh_run (reqCtx req) st1 f raw ttl w2 Hf Hcall Hraw).
  cbn [world provider trace]. unfold bind at 1. rewrite closeBody_run.
  cbn [world provider trace]. unfold regenerate in Hregen.
  destruct (GetBody req) as [getBody|].
  - run. destruct (getBody w2) as [rb wb]. injection Hregen as -> -> <-.
    cbn [fst snd world provider trace].
    rewrite inner_dispatch by (rewrite replayOf_clean; exact Hclean).
    cbn [world provider trace]. fold again. rewrite Hagain. cbn [fst snd].
    subst st1. cbn [world provider trace]. now rewrite <- !app_assoc.
  - injection Hregen as <- <- <-.
    rewrite inner_dispatch by (rewrite replayOf_clean; exact Hclean).
    cbn [world provider trace]. fold again. rewrite Hagain. cbn [fst snd].
    subst st1. cbn [world provider trace]. now rewrite <- !app_assoc.
Qed.

(** X15: when the body cannot be produced again, the failure of GetBody
    is the failure of the call and no second request is sent; the forced
    refresh has taken place all the same: the new token is cached and the
    body of the rejected response is closed. *)
Theorem body_regeneration_failure_aborts
  req st f resp w1 raw ttl w2 bodyErr w3 evs :
  carriesError req = false ->
  Value (reqCtx req) tokenRetryKey = None ->
  notReplayable req = false ->
  refresh (provider st) = Some f ->
  backend req (world st) = (Ok resp, w1) ->
  StatusCode resp = StatusUnauthorized ->
  f (reqCtx req) w1 = (Ok (raw, ttl), w2) ->
  blank raw = false ->
  regenerate req w2 = (Err bodyErr, w3, evs) ->
  RoundTrip proxyTransport req st =
    (Err bodyErr,
     {| world := w3;
        provider := {| token := TrimSpace raw;
                       refreshAt := deadlineAt (clock w2) ttl;
                       fetch := fetch (provider st);
                       refresh := refresh (provider st) |};
        trace := trace st ++ [Dispatched req; RefreshCalled]
                 ++ closing resp ++ evs |}) /\
  evs = [GetBodyCalled].
Proof.
  intros Hclean Hmark Hbody Hf Hback H401 Hcall Hraw Hregen.
  pose proof (inner_dispatch req st Hclean) as Hfirst. rewrite Hback in Hfirst.
  cbn [fst snd] in Hfirst.
  set (st1 := {| world := w1; provider := provider st;
                 trace := trace st ++ [Dispatched req] |}) in *.
  rewrite (retry_continues proxyTransport req st resp st1 f Hfirst H401 Hmark
             eq_refl Hf Hbody).
  unfold bind at 1.
  rewrite (forceRefresh_run (reqCtx req) st1 f raw ttl w2 Hf Hcall Hraw).
  cbn [world provider trace]. unfold bind at 1. rewrite closeBody_run.
  cbn [world provider trace]. unfold regenerate in Hregen.
  destruct (GetBody req) as [getBody|]; [|discriminate].
  run. destruct (getBody w2) as [rb wb]. injection Hregen as -> -> <-.
  cbn [fst snd world provider trace]. subst st1. cbn [world provider trace].
  split; [|reflexivity]. now rewrite <- !app_assoc.
Qed.

(** X16: when the forced refresh fails, by a failure of the refresh
    function or by a blank token, its error is the answer of the call in
    place of the rejection; one request has been sent, the cache is as it
    was, and the body of the rejected response has not been closed. *)
Theorem forced_refresh_failure_aborts req st f resp w1 out w2 :
  carriesError req = false ->
  Value (reqCtx req) tokenRetryKey = None ->
  notReplayable req = false ->
  refresh (provider st) = Some f ->
  backend req (world st) = (Ok resp, w1) ->
  StatusCode resp = StatusUnauthorized ->
  f (reqCtx req) w1 = (out, w2) ->
  match out with
  | Err _ => True
  | Ok (raw, _) => blank raw = true
  end ->
  RoundTrip proxyTransport req st =
    (Err (match out with Err err => err | Ok _ => errTokenEmpty end),
     {| world := w2; provider := provider st;
        trace := trace st ++ [Dispatched req; RefreshCalled] |}).
Proof.
  intros Hclean Hmark Hbody Hf Hback H401 Hcall Hout.
  pose proof (inner_dispatch req st Hclean) as Hfirst. rewrite Hback in Hfirst.
  cbn [fst snd] in Hfirst.
  set (st1 := {| world := w1; provider := provider st;
                 trace := trace st ++ [Dispatched req] |}) in *.
  rewrite (retry_continues proxyTransport req st resp st1 f Hfirst H401 Hmark
             eq_refl Hf Hbody).
  unfold bind at 1. destruct out as [[raw ttl]|err].
  - rewrite (forceRefresh_blank (reqCtx req) st1 f raw ttl w2 Hf Hcall Hout).
    subst st1. cbn [world provider trace]. unfold ret. now rewrite <- app_assoc.
  - rewrite (forceRefresh_fails (reqCtx req) st1 f err w2 Hf Hcall).
    subst st1. cbn [world provider trace]. unfold ret. now rewrite <- app_assoc.
Qed.

(** X17: a retry transport without provider, or whose provider has no
    refresh function, returns every rejection as it is, the state being
    the one the single dispatch left. *)
Theorem retry_needs_refresh_function {B} {H : RoundTripper (E := E) B}
  (t : tokenRetryTransport B) req st resp st1 :
  RoundTrip (retryBase t) req st = (Ok resp, st1) ->
  retryProvider t = nilProvider \/ refresh (provider st1) = None ->
  RoundTrip t req st = (Ok resp, st1).
Proof.
  intros Hbase Hwhy. apply (retry_declined t req st resp st1 Hbase).
  destruct Hwhy; auto.
Qed.

End TransportFurther.

(** * Further properties of the remote credential fetcher *)

Section FetcherFurther.

Context {E : Type} {W : World E}.

Implicit Types (st : State E) (ctx : Ctx).

(** X18: a success of the fetcher comes from a 200 answer whose payload
    decodes to an access_token that is not blank, which is returned as it
    is; the lifetime is zero for an expires_in that is not positive and
    expires_in seconds for one up to 9223372036, the most whose
    nanoseconds fit an int64. *)
Theorem fetchTokenFromURL_success ctx url (w w' : E) tok ttl :
  fetchTokenFromURL ctx url w = (Ok (tok, ttl), w') ->
  blank tok = false /\
  exists resp n,
    client_Get ctx url w = (Ok resp, w') /\
    StatusCode resp = StatusOK /\
    json_Decode (RespBody resp) = Ok (tok, n) /\
    (n <= 0 -> ttl = 0) /\
    (0 < n <= 9223372036 -> ttl = n * Second).
Proof.
  unfold fetchTokenFromURL.
  destruct (http_NewRequest url); [discriminate|].
  destruct (client_Get ctx url w) as [[resp|err] w1]; [|discriminate].
  destruct (Z.eqb_spec (StatusCode resp) StatusOK) as [Hstatus|]; [|discriminate].
  cbn [negb].
  destruct (json_Decode (RespBody resp)) as [[tok' n]|err] eqn:Hdecode;
    [|discriminate].
  destruct (blank tok') eqn:Hblank; [discriminate|].
  destruct (Z.leb_spec n 0) as [Hn|Hn]; intros [= <- <- <-];
    (split; [exact Hblank|]); exists resp, n; repeat split; auto; try lia.
  intros Hrange. apply wrap64_small. unfold int64_range, Second. lia.
Qed.

(** X19: the failures on the way to the token are the failures of the
    fetcher: a request that cannot be built fails it before anything is
    sent, the world being as it was; a failure of the client and a payload
    that does not decode fail it with their own error. *)
Theorem fetchTokenFromURL_failures ctx url (w : E) :
  (forall err, http_NewRequest url = Some err ->
   fetchTokenFromURL ctx url w = (Err err, w)) /\
  (forall err w', http_NewRequest url = None ->
   client_Get ctx url w = (Err err, w') ->
   fetchTokenFromURL ctx url w = (Err err, w')) /\
  (forall resp err w', http_NewRequest url = None ->
   client_Get ctx url w = (Ok resp, w') ->
   StatusCode resp = StatusOK ->
   json_Decode (RespBody resp) = Err err ->
   fetchTokenFromURL ctx url w = (Err err, w')).
Proof.
  unfold fetchTokenFromURL. split; [|split].
  - now intros err ->.
  - intros err w' -> Hget. now rewrite Hget.
  - intros resp err w' -> Hget Hstatus Hdecode. rewrite Hget.
    apply Z.eqb_eq in Hstatus. now rewrite Hstatus, Hdecode.
Qed.

(** X20: a provider configured with WithTokenRefreshURL caches, on a
    forced refresh, the trimmed access_token of the payload, with the
    deadline of expires_in seconds counted from the clock after the call;
    from 300 seconds on the deadline is 30 seconds before the expiry. *)
Theorem refresh_from_token_url cfg url ctx st resp w' tok n :
  blank url = false ->
  refresh (provider st) = refresh (cfgProvider (WithTokenRefreshURL url cfg)) ->
  http_NewRequest url = None ->
  client_Get ctx url (world st) = (Ok resp, w') ->
  StatusCode resp = StatusOK ->
  json_Decode (RespBody resp) = Ok (tok, n) ->
  blank tok = false ->
  0 < n <= 9223372036 ->
  forceRefresh ctx theProvider st =
    (Ok (TrimSpace tok),
     {| world := w';
        provider := {| token := TrimSpace tok;
                       refreshAt := clock w' + n * Second - expiryBuffer (n * Second);
                       fetch := fetch (provider st);
                       refresh := refresh (provider st) |};
        trace := trace st ++ [RefreshCalled] |}) /\
  (300 <= n -> expiryBuffer (n * Second) = 30 * Second).
Proof.
  intros Hurl Hf Hreq Hget Hstatus Hdecode Htok Hn.
  unfold WithTokenRefreshURL in Hf. rewrite Hurl in Hf. cbn in Hf.
  destruct (fetchTokenFromURL_answers ctx url (world st) w' resp Hreq Hget)
    as [_ Hok].
  destruct (Hok tok n Hstatus Hdecode) as (_ & _ & Hseconds).
  split.
  - rewrite (forceRefresh_run ctx st _ tok (n * Second) w' Hf (Hseconds Htok Hn) Htok).
    unfold deadlineAt. destruct (Z.ltb_spec 0 (n * Second)) as [|Hbad];
      [reflexivity | unfold Second in Hbad; lia].
  - intros Hlong. rewrite expiryBuffer_closed by (unfold Second; lia).
    unfold Second. compare_cases.
Qed.

End FetcherFurther.

(** ** Further runs in the scripted world *)

Lemma refresh_failure_keeps_cache_witness :
  let st := simServing 1000 [] [Err (foreign 7)] "old" 500 in
  let w' := {| simNow := 1000; simBackend := []; simRefresh := [];
               simEndpoint := 200 |} in
  refresh (provider st) = Some scriptedRefresh /\
  scriptedRefresh [] (world st) = (Err (foreign 7), w') /\
  due (provider st) (world st) = true /\
  ensureToken [] theProvider st =
    (Err (foreign 7), {| world := w'; provider := provider st;
                         trace := [RefreshCalled] |}).
Proof.
  intros st w'. split; [reflexivity|]. split; [reflexivity|].
  split; [reflexivity|].
  exact (proj2 (refresh_failure_keeps_cache [] st scriptedRefresh (foreign 7) w'
                  eq_refl eq_refl) eq_refl).
Defined.

Lemma ensureToken_refreshes_iff_due_witness :
  let st := simServing 1000 [] [Ok ("new", 0)] "old" 1000 in
  refresh (provider st) = Some scriptedRefresh /\
  trace (snd (ensureToken [] theProvider st)) = [] /\
  ensureToken [] theProvider (simServing 1001 [] [Ok ("new", 0)] "old" 1000)
  = (Ok "new",
     {| world := {| simNow := 1001; simBackend := []; simRefresh := [];
                    simEndpoint := 200 |};
        provider := {| token := "new"; refreshAt := zeroTime; fetch := None;
                       refresh := Some scriptedRefresh |};
        trace := [RefreshCalled] |}).
Proof.
  intros st. split; [reflexivity|].
  split; [|reflexivity].
  exact (proj1 (ensureToken_refreshes_iff_due [] st scriptedRefresh eq_refl)).
Defined.

Lemma setWithExpiry_deadline_window_witness :
  let st := simServing 1000 [] [] "old" 0 in
  0 < 3600 * Second /\
  refreshAt (provider (snd (setWithExpiry "tok" (3600 * Second) st)))
  = 1000 + 3600 * Second - 30 * Second /\
  1000 < refreshAt (provider (snd (setWithExpiry "tok" (3600 * Second) st)))
  <= 1000 + 3600 * Second.
Proof.
  intros st.
  assert (Hpos : 0 < 3600 * Second) by reflexivity.
  split; [exact Hpos|]. split; [reflexivity|].
  exact (proj1 (setWithExpiry_deadline_window "tok" (3600 * Second) st Hpos)).
Defined.

Lemma refresh_answer_is_installed_witness :
  let st := simServing 1000 [] [Ok (" new ", 60 * Second)] "old" 0 in
  let w' := {| simNow := 1000; simBackend := []; simRefresh := [];
               simEndpoint := 200 |} in
  refresh (provider st) = Some scriptedRefresh /\
  scriptedRefresh [] (world st) = (Ok (" new ", 60 * Second), w') /\
  blank " new " = false /\
  forceRefresh [] theProvider st =
    (Ok "new",
     {| world := w';
        provider := {| token := "new"; refreshAt := 1000 + 54 * Second;
                       fetch := None; refresh := Some scriptedRefresh |};
        trace := [RefreshCalled] |}).
Proof.
  intros st w'. split; [reflexivity|]. split; [reflexivity|].
  split; [reflexivity|].
  exact (proj1 (refresh_answer_is_installed [] st scriptedRefresh " new "
                  (60 * Second) w' eq_refl eq_refl eq_refl)).
Defined.

Lemma ensureToken_twice_witness :
  let st := simServing 1000 [] [Ok (" new ", 60 * Second)] "" 0 in
  let st' := {| world := {| simNow := 1000; simBackend := []; simRefresh := [];
                            simEndpoint := 200 |};
                provider := {| token := "new"; refreshAt := 1000 + 54 * Second;
                               fetch := None; refresh := Some scriptedRefresh |};
                trace := [RefreshCalled] |} in
  ensureToken [] theProvider st = (Ok "new", st') /\
  ensureToken [] theProvider st' = (Ok "new", st').
Proof.
  intros st st'.
  assert (Hfirst : ensureToken [] theProvider st = (Ok "new", st')) by reflexivity.
  split; [exact Hfirst|].
  exact (ensureToken_twice [] [] st st' "new" Hfirst).
Defined.

Lemma nonpositive_lifetime_never_expires_witness :
  let st := simServing 1000 [] [Ok ("new", 0)] "old" 500 in
  let w' := {| simNow := 1000; simBackend := []; simRefresh := [];
               simEndpoint := 200 |} in
  let later := [simAt 2000; simAt (3600 * Second)] in
  refresh (provider st) = Some scriptedRefresh /\
  scriptedRefresh [] (world st) = (Ok ("new", 0), w') /\
  blank "new" = false /\ 0 <= 0 /\
  refreshCalls
    (trace (snd (ensureEach [] later (snd (forceRefresh [] theProvider st)))))
  = refreshCalls (trace (snd (forceRefresh [] theProvider st))).
Proof.
  intros st w' later. split; [reflexivity|]. split; [reflexivity|].
  split; [reflexivity|]. split; [lia|].
  exact (proj2 (proj2 (nonpositive_lifetime_never_expires [] st scriptedRefresh
                         "new" 0 w' later eq_refl eq_refl eq_refl
                         (Z.le_refl 0)))).
Defined.

Lemma newReverseProxy_start_witness :
  let opts := [WithTokenFetcherFunc (Some (constantFetch " fresh-token "))] in
  let st' := simFetched " fresh-token " "fresh-token" in
  Forall sourceOption opts /\
  newReverseProxy "http://backend" opts (simStart 1000 [] []) = (Ok simProxy, st') /\
  refreshAt (provider st') = zeroTime /\
  trace st' = [FetchCalled] /\
  token (provider st') = "fresh-token".
Proof.
  intros opts st'.
  assert (Hopts : Forall sourceOption opts)
    by (constructor; [left; eexists; reflexivity | constructor]).
  assert (Hnew : newReverseProxy "http://backend" opts (simStart 1000 [] [])
                 = (Ok simProxy, st')) by reflexivity.
  split; [exact Hopts|]. split; [exact Hnew|].
  pose proof (newReverseProxy_start "http://backend" opts (simStart 1000 [] [])
                simProxy st' Hopts Hnew) as (Hat & _ & Hfetch).
  split; [exact Hat|]. cbn in Hfetch. destruct Hfetch as (Htrace & _ & Htok).
  split; [exact Htrace | exact Htok].
Defined.

Lemma public_refresh_never_expires_witness :
  let cfg := {| cfgProvider := emptyProvider |} in
  let st := {| world := {| simNow := 1000; simBackend := []; simRefresh := [];
                           simEndpoint := 200 |};
               provider := cfgProvider
                             (WithTokenRefreshFunc (Some (constantRefresh " tok ")) cfg);
               trace := [] |} in
  let later := [simAt 2000; simAt (3600 * Second)] in
  constantRefresh " tok " [] (world st) = (Ok " tok ", world st) /\
  blank " tok " = false /\
  fst (forceRefresh [] theProvider st) = Ok "tok" /\
  refreshAt (provider (snd (forceRefresh [] theProvider st))) = zeroTime /\
  refreshCalls
    (trace (snd (ensureEach [] later (snd (forceRefresh [] theProvider st)))))
  = refreshCalls (trace (snd (forceRefresh [] theProvider st))).
Proof.
  intros cfg st later. split; [reflexivity|]. split; [reflexivity|].
  pose proof (public_refresh_never_expires cfg (constantRefresh " tok ") [] st
                " tok " (world st) later eq_refl eq_refl eq_refl)
    as (Hres & _ & Hat & Hcalls).
  split; [exact Hres|]. split; [exact Hat | exact Hcalls].
Defined.

Lemma main_needs_token_url_witness :
  blank "" = true /\
  blank (backendOnly "TOKEN_URL") = true /\
  main "" "" backendOnly (simStart 1000 [] [])
  = (Err (errors_New "token fetcher or refresh must be configured"),
     simStart 1000 [] []) /\
  exists err, main "" "" backendOnly (simStart 1000 [] [])
              = (Err err, simStart 1000 [] []).
Proof.
  split; [reflexivity|]. split; [reflexivity|]. split; [reflexivity|].
  exact (main_needs_token_url "" "" backendOnly (simStart 1000 [] [])
           eq_refl eq_refl).
Defined.

Lemma main_start_witness :
  let st' := {| world := world (simStart 1000 [] []);
                provider := {| token := ""; refreshAt := zeroTime; fetch := None;
                               refresh := Some (fun ctx =>
                                 fetchTokenFromURL ctx "http://token") |};
                trace := [] |} in
  main "" "http://token" backendOnly (simStart 1000 [] []) = (Ok simProxy, st') /\
  Director simProxy = tokenDirector "http://backend" theProvider /\
  forall w, due (provider st') w = true.
Proof.
  intros st'.
  assert (Hrun : main "" "http://token" backendOnly (simStart 1000 [] [])
                 = (Ok simProxy, st')) by reflexivity.
  split; [exact Hrun|].
  pose proof (main_start "" "http://token" backendOnly (simStart 1000 [] [])
                simProxy st' Hrun) as (_ & _ & Hdir & _ & Hdue).
  split; [exact Hdir | exact Hdue].
Defined.

Lemma director_sets_bearer_and_transport_forwards_witness :
  let opts := [WithTokenFetcherFunc (Some (constantFetch " fresh-token "))] in
  let st := simServing 1000 [200] [] "fresh-token" 0 in
  let out := setBearer plainRequest "fresh-token" in
  let answer := {| StatusCode := 200; RespBody := NoBody |} in
  let w' := {| simNow := 1000; simBackend := []; simRefresh := [];
               simEndpoint := 200 |} in
  newReverseProxy "http://backend" opts (simStart 1000 [] [])
  = (Ok simProxy, simFetched " fresh-token " "fresh-token") /\
  fresh (provider st) (world st) /\
  Director simProxy plainRequest st = (out, st) /\
  Header_Get "Authorization" (Header out) = "Bearer fresh-token" /\
  RoundTrip (Transport simProxy) out st =
    (Ok answer, {| world := w'; provider := provider st;
                   trace := [Dispatched out] |}).
Proof.
  intros opts st out answer w'.
  assert (Hnew : newReverseProxy "http://backend" opts (simStart 1000 [] [])
                 = (Ok simProxy, simFetched " fresh-token " "fresh-token"))
    by reflexivity.
  assert (Hfresh : fresh (provider st) (world st))
    by (split; [reflexivity | left; reflexivity]).
  assert (Hstatus : StatusCode answer <> StatusUnauthorized) by discriminate.
  split; [exact Hnew|]. split; [exact Hfresh|].
  pose proof (director_sets_bearer_and_transport_forwards "http://backend" opts
                (simStart 1000 [] []) (simFetched " fresh-token " "fresh-token")
                simProxy plainRequest st Hnew Hfresh)
    as (Hdir & Hauth & _ & _ & _ & Hsend).
  split; [exact Hdir|]. split; [exact Hauth|].
  exact (Hsend out answer w' eq_refl eq_refl Hstatus).
Defined.

Lemma unauthorized_request_is_replayed_witness :
  let st := simServing 1000 [401; 200] [Ok ("new-token", 3600 * Second)]
              "bad-token" 0 in
  let w1 := {| simNow := 1000; simBackend := [200];
               simRefresh := [Ok ("new-token", 3600 * Second)];
               simEndpoint := 200 |} in
  let w2 := {| simNow := 1000; simBackend := [200]; simRefresh := [];
               simEndpoint := 200 |} in
  let w4 := {| simNow := 1000; simBackend := []; simRefresh := [];
               simEndpoint := 200 |} in
  let rejected := {| StatusCode := 401; RespBody := NoBody |} in
  let accepted := {| StatusCode := 200; RespBody := NoBody |} in
  let again := replayOf replayableUpload (reader "payload") "new-token" in
  backend replayableUpload (world st) = (Ok rejected, w1) /\
  scriptedRefresh [] w1 = (Ok ("new-token", 3600 * Second), w2) /\
  regenerate replayableUpload w2 = (Ok (reader "payload"), w2, [GetBodyCalled]) /\
  backend again w2 = (Ok accepted, w4) /\
  RoundTrip proxyTransport replayableUpload st =
    (Ok accepted,
     {| world := w4;
        provider := {| token := "new-token";
                       refreshAt := 1000 + 3600 * Second - 30 * Second;
                       fetch := None; refresh := Some scriptedRefresh |};
        trace := [Dispatched replayableUpload; RefreshCalled; BodyClosed;
                  GetBodyCalled; Dispatched again] |}).
Proof.
  intros st w1 w2 w4 rejected accepted again.
  split; [reflexivity|]. split; [reflexivity|]. split; [reflexivity|].
  split; [reflexivity|].
  exact (proj1 (unauthorized_request_is_replayed replayableUpload st
                  scriptedRefresh rejected w1 "new-token" (3600 * Second) w2
                  (reader "payload") w2 [GetBodyCalled] (Ok accepted) w4
                  eq_refl eq_refl eq_refl eq_refl eq_refl eq_refl eq_refl
                  eq_refl eq_refl eq_refl)).
Defined.

Lemma body_regeneration_failure_aborts_witness :
  let st := simServing 1000 [401; 200] [Ok ("new-token", 0)] "bad-token" 0 in
  let w1 := {| simNow := 1000; simBackend := [200];
               simRefresh := [Ok ("new-token", 0)]; simEndpoint := 200 |} in
  let w2 := {| simNow := 1000; simBackend := [200]; simRefresh := [];
               simEndpoint := 200 |} in
  let rejected := {| StatusCode := 401; RespBody := NoBody |} in
  backend brokenUpload (world st) = (Ok rejected, w1) /\
  scriptedRefresh [] w1 = (Ok ("new-token", 0), w2) /\
  regenerate brokenUpload w2 = (Err (foreign 9), w2, [GetBodyCalled]) /\
  RoundTrip proxyTransport brokenUpload st =
    (Err (foreign 9),
     {| world := w2;
        provider := {| token := "new-token"; refreshAt := zeroTime;
                       fetch := None; refresh := Some scriptedRefresh |};
        trace := [Dispatched brokenUpload; RefreshCalled; BodyClosed;
                  GetBodyCalled] |}).
Proof.
  intros st w1 w2 rejected.
  split; [reflexivity|]. split; [reflexivity|]. split; [reflexivity|].
  exact (proj1 (body_regeneration_failure_aborts brokenUpload st
                  scriptedRefresh rejected w1 "new-token" 0 w2 (foreign 9) w2
                  [GetBodyCalled]
                  eq_refl eq_refl eq_refl eq_refl eq_refl eq_refl eq_refl
                  eq_refl eq_refl)).
Defined.

Lemma forced_refresh_failure_aborts_witness :
  let st := simServing 1000 [401; 200] [Err (foreign 7)] "bad-token" 0 in
  let w1 := {| simNow := 1000; simBackend := [200];
               simRefresh := [Err (foreign 7)]; simEndpoint := 200 |} in
  let w2 := {| simNow := 1000; simBackend := [200]; simRefresh := [];
               simEndpoint := 200 |} in
  let rejected := {| StatusCode := 401; RespBody := NoBody |} in
  backend plainRequest (world st) = (Ok rejected, w1) /\
  scriptedRefresh [] w1 = (Err (foreign 7), w2) /\
  RoundTrip proxyTransport plainRequest st =
    (Err (foreign 7),
     {| world := w2; provider := provider st;
        trace := [Dispatched plainRequest; RefreshCalled] |}).
Proof.
  intros st w1 w2 rejected.
  split; [reflexivity|]. split; [reflexivity|].
  exact (forced_refresh_failure_aborts plainRequest st scriptedRefresh rejected
           w1 (Err (foreign 7)) w2
           eq_refl eq_refl eq_refl eq_refl eq_refl eq_refl eq_refl I).
Defined.

Lemma retry_needs_refresh_function_witness :
  let t := {| retryBase := retryBase proxyTransport;
              retryProvider := nilProvider |} in
  let st := simServing 1000 [401; 200] [Ok ("new-token", 0)] "bad-token" 0 in
  let rejected := {| StatusCode := 401; RespBody := NoBody |} in
  let st1 := {| world := {| simNow := 1000; simBackend := [200];
                            simRefresh := [Ok ("new-token", 0)];
                            simEndpoint := 200 |};
                provider := provider st;
                trace := [Dispatched plainRequest] |} in
  RoundTrip (retryBase t) plainRequest st = (Ok rejected, st1) /\
  retryProvider t = nilProvider /\
  RoundTrip t plainRequest st = (Ok rejected, st1).
Proof.
  intros t st rejected st1.
  split; [reflexivity|]. split; [reflexivity|].
  exact (retry_needs_refresh_function t plainRequest st rejected st1 eq_refl
           (or_introl eq_refl)).
Defined.

Lemma fetchTokenFromURL_success_witness :
  let w := world (simStart 1000 [] []) in
  fetchTokenFromURL [] "http://token" w = (Ok ("new-token", 3600 * Second), w) /\
  blank "new-token" = false.
Proof.
  intros w.
  assert (Hrun : fetchTokenFromURL [] "http://token" w
                 = (Ok ("new-token", 3600 * Second), w)) by reflexivity.
  split; [exact Hrun|].
  exact (proj1 (fetchTokenFromURL_success [] "http://token" w w "new-token"
                  (3600 * Second) Hrun)).
Defined.

Lemma refresh_from_token_url_witness :
  let cfg := {| cfgProvider := emptyProvider |} in
  let w := {| simNow := 1000; simBackend := []; simRefresh := [];
              simEndpoint := 200 |} in
  let st := {| world := w;
               provider := cfgProvider (WithTokenRefreshURL "http://token" cfg);
               trace := [] |} in
  let answer := {| StatusCode := 200; RespBody := reader "payload" |} in
  blank "http://token" = false /\
  client_Get [] "http://token" w = (Ok answer, w) /\
  json_Decode (RespBody answer) = Ok ("new-token", 3600) /\
  0 < 3600 <= 9223372036 /\
  forceRefresh [] theProvider st =
    (Ok "new-token",
     {| world := w;
        provider := {| token := "new-token";
                       refreshAt := 1000 + 3600 * Second - 30 * Second;
                       fetch := None;
                       refresh := refresh (provider st) |};
        trace := [RefreshCalled] |}).
Proof.
  intros cfg w st answer.
  assert (Hn : 0 < 3600 <= 9223372036) by lia.
  split; [reflexivity|]. split; [reflexivity|]. split; [reflexivity|].
  split; [exact Hn|].
  exact (proj1 (refresh_from_token_url cfg "http://token" [] st answer w
                  "new-token" 3600 eq_refl eq_refl eq_refl eq_refl eq_refl
                  eq_refl eq_refl Hn)).
Defined.
